(** * Mutation reconstruction of paper/gfp_prediction.ipynb

    A shallow embedding of the four functions of the notebook that turn a
    mutation string such as [A111T:V130A] into a full mutant sequence:
    [aa_pos], [aa_letter], [mut2seq] and [count_mutations], together with
    the builtins they call ([int], slicing, indexing, [str.split],
    [list], item assignment, [str.join]); of [mut2gfp], the partial
    application of [mut2seq] to the wild type; and of [chunker], which
    cuts the sequences in batches, with [range] and slicing.

    Conventions of the model:
    - a Python [str] is a [string]: a sequence of characters with code
      points 0..255;
    - a Python [int] is a [Z];
    - a dynamically typed value that may be [None], a [str] or an [int] is
      a [value];
    - a call that may raise returns a [result]; the exception says which
      [raise] or which builtin produced it. *)

From Stdlib Require Import ZArith Lia Ascii String List.
From stdpp Require Import base list.
Import ListNotations.

Local Open Scope string_scope.
Local Open Scope Z_scope.

(** ** Exceptions and results *)

(** The exceptions the four functions can end with. The notebook raises
    [ValueError] at two places of [mut2seq]; [int] and [str.split] raise
    [ValueError] too. The constructors keep the four origins apart. *)
Inductive exn : Type :=
| ValueError_int        (* int(): invalid literal for int() with base 10 *)
| ValueError_zero       (* mut2seq: It has "0" as its position. *)
| ValueError_too_large  (* mut2seq: Its position is greater than the length of the WT sequence. *)
| ValueError_empty_sep  (* str.split: empty separator *)
| TypeError
| IndexError
| AttributeError.

Inductive result (A : Type) : Type :=
| Ok (a : A)
| Raise (e : exn).

Arguments Ok {A} a.
Arguments Raise {A} e.

Definition bind {A B : Type} (r : result A) (k : A -> result B) : result B :=
  match r with
  | Ok a => k a
  | Raise e => Raise e
  end.

Notation "'let*' x ':=' r 'in' k" := (bind r (fun x => k))
  (at level 10, x name, r at level 100, k at level 200).

Definition succeeds {A : Type} (r : result A) : Prop := exists a, r = Ok a.
Definition fails {A : Type} (r : result A) : Prop := exists e, r = Raise e.

(** The error taxonomy of the specification, read on the exceptions of the
    code: a malformed token is the [ValueError] of [int]; an invalid
    position is one of the two [ValueError]s that [mut2seq] raises itself. *)
Definition MalformedTokenError (e : exn) : Prop := e = ValueError_int.
Definition InvalidPositionError (e : exn) : Prop :=
  e = ValueError_zero \/ e = ValueError_too_large.

(** ** Values *)

Inductive value : Type :=
| VNone
| VStr (s : string)
| VInt (z : Z).

(** Truth value of an object, as tested by [not mut]. *)
Definition truthy (v : value) : bool :=
  match v with
  | VNone => false
  | VStr "" => false
  | VStr _ => true
  | VInt z => negb (z =? 0)
  end.

(** ** Builtins on [str] *)

Definition len (s : string) : Z := Z.of_nat (String.length s).

(** A slice bound is taken from the end when negative and clamped to
    [0 .. len]. *)
Definition slice_bound (i n : Z) : Z :=
  if i <? 0 then Z.max (i + n) 0 else Z.min i n.

(** [s[start:stop]] *)
Definition slice (s : string) (start stop : Z) : string :=
  let lo := slice_bound start (len s) in
  let hi := slice_bound stop (len s) in
  substring (Z.to_nat lo) (Z.to_nat (hi - lo)) s.

(** [s[i]]: a one-character [str], [IndexError] out of range. *)
Definition getitem (s : string) (i : Z) : result string :=
  let n := len s in
  if (i <? - n) || (n <=? i) then Raise IndexError
  else
    match String.get (Z.to_nat (if i <? 0 then i + n else i)) s with
    | Some c => Ok (String c "")
    | None => Raise IndexError
    end.

(** *** [int(s)], base 10

    The literal is: optional white space, an optional sign, decimal digits
    that single underscores may separate, optional white space. Among the
    code points 0..255 the white space of [int] is TAB, LF, VT, FF, CR,
    SPACE, NEL (133) and NBSP (160), and the decimal digits are 0..9.
    The number of digits is not bounded (the bound that interpreters from
    3.11 on apply to very long literals is a setting of the interpreter). *)
Definition is_space (c : ascii) : bool :=
  let n := nat_of_ascii c in
  ((9 <=? n)%nat && (n <=? 13)%nat) || (n =? 32)%nat || (n =? 133)%nat || (n =? 160)%nat.

Definition is_digit (c : ascii) : bool :=
  let n := nat_of_ascii c in (48 <=? n)%nat && (n <=? 57)%nat.

Definition digit_value (c : ascii) : Z := Z.of_nat (nat_of_ascii c) - 48.

Fixpoint skip_spaces (s : string) : string :=
  match s with
  | String c s' => if is_space c then skip_spaces s' else s
  | "" => ""
  end.

(** Digits and underscores from the left, most significant digit first.
    [after_us] tells that the previous character was an underscore: a
    second underscore in a row, or an underscore that ends the run, is an
    error. The result is the number read and the rest of the string. *)
Fixpoint scan_digits (s : string) (after_us : bool) (acc : Z) : option (Z * string) :=
  match s with
  | String c s' =>
      if is_digit c then scan_digits s' false (10 * acc + digit_value c)
      else if Ascii.eqb c "_" then
             if after_us then None else scan_digits s' true acc
           else if after_us then None else Some (acc, s)
  | "" => if after_us then None else Some (acc, "")
  end.

Definition int (s : string) : result Z :=
  let s1 := skip_spaces s in
  let '(sign, s2) :=
    match s1 with
    | String "+" r => (1, r)
    | String "-" r => (-1, r)
    | _ => (1, s1)
    end in
  match s2 with
  | String c _ =>
      if is_digit c then
        match scan_digits s2 false 0 with
        | Some (z, rest) =>
            match skip_spaces rest with
            | "" => Ok (sign * z)
            | _ => Raise ValueError_int
            end
        | None => Raise ValueError_int
        end
      else Raise ValueError_int
  | "" => Raise ValueError_int
  end.

(** *** [s.split(sep)]

    Occurrences of [sep] are found from the left and do not overlap.
    [skip] counts the characters of a separator that are still to be
    passed over; [cur] is the token read so far. *)
Fixpoint split_from (sep s : string) (skip : nat) (cur : string) : list string :=
  match s with
  | "" => [cur]
  | String c s' =>
      match skip with
      | S k => split_from sep s' k cur
      | O =>
          if String.prefix sep s
          then cur :: split_from sep s' (String.length sep - 1) ""
          else split_from sep s' 0 (cur ++ String c "")%string
      end
  end.

Definition split (s sep : string) : result (list string) :=
  match sep with
  | "" => Raise ValueError_empty_sep
  | _ => Ok (split_from sep s 0 "")
  end.

(** ** Builtins on [list] *)

(** [list(s)]: the one-character strings of [s]. *)
Fixpoint list_of_str (s : string) : list value :=
  match s with
  | "" => []
  | String c s' => VStr (String c "") :: list_of_str s'
  end.

(** [l[i] = x]: negative indices count from the end; [IndexError] when
    [i] is outside [-len(l) .. len(l) - 1]. *)
Definition setitem (l : list value) (i : Z) (x : value) : result (list value) :=
  let n := Z.of_nat (length l) in
  if (i <? - n) || (n <=? i) then Raise IndexError
  else Ok (<[Z.to_nat (if i <? 0 then i + n else i) := x]> l).

(** ["".join(l)]: every item has to be a [str]. *)
Fixpoint join_empty (l : list value) : result string :=
  match l with
  | [] => Ok ""
  | VStr s :: l' => let* r := join_empty l' in Ok (s ++ r)%string
  | _ :: _ => Raise TypeError
  end.

(** ** The notebook's functions *)

(** The wild-type GFP sequence of the notebook. *)
Definition wt : string :=
  "SKGEELFTGVVPILVELDGDVNGHKFSVSGEGEGDATYGKLTLKFICTTGKLPVPWPTLVTTLSYGVQCFSRYPDHMKQHDFFKSAMPEGYVQERTIFFKDDGNYKTRAEVKFEGDTLVNRIELKGIDFKEDGNILGHKLEYNYNSHNVYIMADKQKNGIKVNFKIRHNIEDGSVQLADHYQQNTPIGDGPVLLPDNHYLSTQSALSKDPNEKRDHMVLLEFVTAAGITHGMDELYK".

(** [aa_pos(mut)]: [mut] itself when it is falsy, else [int(mut[2:-1])]. *)
Definition aa_pos (mut : value) : result value :=
  if negb (truthy mut) then Ok mut
  else
    match mut with
    | VStr s => let* z := int (slice s 2 (-1)) in Ok (VInt z)
    | _ => Raise TypeError
    end.

(** [aa_letter(mut)]: [mut] itself when it is falsy, else [mut[-1]]. *)
Definition aa_letter (mut : value) : result value :=
  if negb (truthy mut) then Ok mut
  else
    match mut with
    | VStr s => let* c := getitem s (-1) in Ok (VStr c)
    | _ => Raise TypeError
    end.

(** [position == 0] *)
Definition eq_zero (position : value) : bool :=
  match position with
  | VInt z => z =? 0
  | _ => false
  end.

(** [position > n] for an [int] [n]: [None] and [str] do not compare. *)
Definition gt_int (position : value) (n : Z) : result bool :=
  match position with
  | VInt z => Ok (n <? z)
  | _ => Raise TypeError
  end.

(** [mutant_sequence[position] = letter] *)
Definition assign (mutant_sequence : list value) (position letter : value)
  : result (list value) :=
  match position with
  | VInt z => setitem mutant_sequence z letter
  | _ => Raise TypeError
  end.

(** The body of the [for] loop of [mut2seq], for one token. *)
Definition mut2seq_body (wt_sequence : string) (mutant_sequence : list value)
  (mut : string) : result (list value) :=
  let* position := aa_pos (VStr mut) in
  let* letter := aa_letter (VStr mut) in
  if eq_zero position then Raise ValueError_zero
  else
    let* too_large := gt_int position (len wt_sequence) in
    if (too_large : bool) then Raise ValueError_too_large
    else assign mutant_sequence position letter.

(** The [for] loop of [mut2seq]. *)
Fixpoint mut2seq_loop (wt_sequence : string) (mutations : list string)
  (mutant_sequence : list value) : result (list value) :=
  match mutations with
  | [] => Ok mutant_sequence
  | mut :: rest =>
      let* mutant_sequence' := mut2seq_body wt_sequence mutant_sequence mut in
      mut2seq_loop wt_sequence rest mutant_sequence'
  end.

(** [mut2seq(mutation_string, wt_sequence, delimiter)] *)
Definition mut2seq (mutation_string : value) (wt_sequence delimiter : string)
  : result string :=
  match mutation_string with
  | VNone => Ok wt_sequence
  | VStr "" => Ok wt_sequence
  | VStr s =>
      let* mutations := split s delimiter in
      let* mutant_sequence := mut2seq_loop wt_sequence mutations (list_of_str wt_sequence) in
      join_empty mutant_sequence
  | VInt _ => Raise AttributeError
  end.

(** [count_mutations(x)] *)
Definition count_mutations (x : value) : result Z :=
  match x with
  | VStr "" => Ok 0
  | VStr s => let* l := split s ":" in Ok (Z.of_nat (length l))
  | _ => Raise AttributeError
  end.

(** [mut2gfp = partial(mut2seq, wt_sequence=wt)], called with the
    mutation string alone: the delimiter is the default [":"]. *)
Definition mut2gfp (mutation_string : value) : result string :=
  mut2seq mutation_string wt ":".

(** *** [chunker] and the builtins it calls *)

(** [range(start, stop, step)], as the list of its items. [None] stands
    for the [ValueError] of a zero step. *)
Definition range (start stop step : Z) : option (list Z) :=
  if step =? 0 then None
  else
    let n :=
      if 0 <? step
      then (if start <? stop then (stop - start - 1) / step + 1 else 0)
      else (if stop <? start then (start - stop - 1) / (- step) + 1 else 0) in
    Some (map (fun i : nat => start + Z.of_nat i * step) (seq 0 (Z.to_nat n))).

(** [l[start:stop]] on a sequence. *)
Definition list_slice {A : Type} (l : list A) (start stop : Z) : list A :=
  let n := Z.of_nat (length l) in
  let lo := slice_bound start n in
  let hi := slice_bound stop n in
  take (Z.to_nat (hi - lo)) (drop (Z.to_nat lo) l).

(** [chunker(seq, size)], as the list of the chunks the generator yields.
    The [range] is built when [chunker] is called; [None] stands for its
    [ValueError]. *)
Definition chunker {A : Type} (sequence : list A) (size : Z) : option (list (list A)) :=
  match range 0 (Z.of_nat (length sequence)) size with
  | None => None
  | Some positions =>
      Some (map (fun pos => list_slice sequence pos (pos + size)) positions)
  end.

(** ** Notions used in the statements *)

(** The items [list] makes of a [str], and the only items [mut2seq] ever
    stores: one-character strings. *)
Definition char_item (c : ascii) : value := VStr (String c "").

Definition is_char (v : value) : Prop := exists c, v = char_item c.

(** The last character of a non-empty string. *)
Fixpoint last_char (c : ascii) (s : string) : ascii :=
  match s with
  | "" => c
  | String c' s' => last_char c' s'
  end.

(** The index [mutant_sequence[position]] reaches in a list of [n] items. *)
Definition written_index (position n : Z) : nat :=
  Z.to_nat (if position <? 0 then position + n else position).

(** A token the loop body accepts on a working copy as long as the
    reference: its position is an integer other than 0 and a valid
    index, from the front or from the end. *)
Definition writable (wt_sequence mut : string) : Prop :=
  exists p,
    aa_pos (VStr mut) = Ok (VInt p) /\ p <> 0 /\
    - len wt_sequence <= p < len wt_sequence.

Fixpoint has_char (d : ascii) (s : string) : bool :=
  match s with
  | "" => false
  | String c s' => Ascii.eqb d c || has_char d s'
  end.

(** The tokens of a mutation string for the separator [:]: they do not
    contain [:], and joined by [:] they give the string. *)
Definition tokens_of (x : string) (ts : list string) : Prop :=
  ts <> [] /\ Forall (fun t => has_char ":" t = false) ts /\
  String.concat ":" ts = x.

(** The index the loop of [mut2seq] writes for a token with an integer
    position (0 for the tokens that have none: the loop fails on them). *)
Definition token_index (wt_sequence mut : string) : nat :=
  match aa_pos (VStr mut) with
  | Ok (VInt p) => written_index p (len wt_sequence)
  | _ => O
  end.

(** The number of indices at which two strings differ. *)
Definition differs_at (a b : string) (i : nat) : bool :=
  match String.get i a, String.get i b with
  | Some x, Some y => negb (Ascii.eqb x y)
  | None, None => false
  | _, _ => true
  end.

Definition hamming (a b : string) : nat :=
  length (List.filter (differs_at a b)
            (seq 0 (Nat.max (String.length a) (String.length b)))).

(** Strings of decimal digits and the number they denote, digit by
    digit: the digit with [k] digits to its right counts [10 ^ k]. *)
Fixpoint all_digits (s : string) : bool :=
  match s with
  | "" => true
  | String c s' => is_digit c && all_digits s'
  end.

Fixpoint decimal (s : string) : Z :=
  match s with
  | "" => 0
  | String c s' => digit_value c * 10 ^ Z.of_nat (String.length s') + decimal s'
  end.

(** The number of occurrences of a character. *)
Fixpoint count_char (d : ascii) (s : string) : nat :=
  match s with
  | "" => O
  | String c s' => ((if Ascii.eqb d c then 1 else 0) + count_char d s')%nat
  end.

(** The number of items of [range(0, n, size)]: [n / size], rounded up. *)
Definition chunk_count (n size : Z) : nat := Z.to_nat ((n + size - 1) / size).

(** ** Running the model *)

Example int_examples :
  int "111" = Ok 111 /\ int " -5 " = Ok (-5) /\ int "1_0" = Ok 10 /\
  int "" = Raise ValueError_int /\ int "- 5" = Raise ValueError_int /\
  int "1__0" = Raise ValueError_int /\ int "_1" = Raise ValueError_int /\
  int "1_" = Raise ValueError_int /\ int "1 2" = Raise ValueError_int /\
  int "-0" = Ok 0 /\ int "XY" = Raise ValueError_int.
Proof. repeat split. Qed.

Example split_examples :
  split "abc" "b" = Ok ["a"; "c"] /\ split "aaa" "aa" = Ok [""; "a"] /\
  split "a" "a" = Ok [""; ""] /\ split "abab" "ab" = Ok [""; ""; ""] /\
  split "A111T; V130A" ":" = Ok ["A111T; V130A"] /\
  split "abc" "" = Raise ValueError_empty_sep.
Proof. repeat split. Qed.

Example slice_examples :
  slice "A111C" 2 (-1) = "11" /\ slice "A1T" 2 (-1) = "" /\
  slice "AT" 2 (-1) = "" /\ slice "SA108D" 2 (-1) = "108".
Proof. repeat split. Qed.

Example aa_pos_examples :
  aa_pos (VStr "SA108D") = Ok (VInt 108) /\ aa_pos (VStr "") = Ok (VStr "") /\
  aa_pos VNone = Ok VNone /\ aa_pos (VStr "AXYT") = Raise ValueError_int /\
  aa_letter (VStr "SA108D") = Ok (VStr "D") /\ aa_letter (VStr "") = Ok (VStr "").
Proof. repeat split. Qed.

Example mut2seq_examples :
  mut2seq (VStr "SK1R:SG2A") "SKGE" ":" = Ok "SRAE" /\
  mut2seq (VStr "SE1T;SE2A") "SKGE" ";" = Ok "STAE" /\
  mut2seq (VStr "SK1R:SE1T") "SKGE" ":" = Ok "STGE" /\
  mut2seq (VStr "SE0T") "SKGE" ":" = Raise ValueError_zero /\
  mut2seq (VStr "SE5T") "SKGE" ":" = Raise ValueError_too_large /\
  mut2seq (VStr "SE4T") "SKGE" ":" = Raise IndexError /\
  mut2seq (VStr "SE-5T") "SKGE" ":" = Raise IndexError /\
  mut2seq (VStr "SEXYT") "SKGE" ":" = Raise ValueError_int /\
  mut2seq (VStr "SE1T::") "SKGE" ":" = Raise TypeError /\
  mut2seq (VStr "SE1T") "SKGE" "" = Raise ValueError_empty_sep.
Proof. repeat split. Qed.

Example count_mutations_examples :
  count_mutations (VStr "a::b") = Ok 3 /\ count_mutations (VStr ":") = Ok 2 /\
  count_mutations (VStr "A111T; V130A") = Ok 1.
Proof. repeat split. Qed.

Example chunker_examples :
  chunker [1; 2; 3; 4; 5] 2 = Some [[1; 2]; [3; 4]; [5]] /\
  chunker [1; 2; 3; 4] 2 = Some [[1; 2]; [3; 4]] /\
  chunker [1; 2; 3] 5 = Some [[1; 2; 3]] /\
  chunker ([] : list Z) 3 = Some [] /\
  chunker [1; 2; 3] (-1) = Some [] /\
  chunker [1; 2; 3] 0 = None.
Proof. repeat split. Qed.

Example range_examples :
  range 0 10 3 = Some [0; 3; 6; 9] /\ range 0 9 3 = Some [0; 3; 6] /\
  range 5 0 (-2) = Some [5; 3; 1] /\ range 0 5 (-1) = Some [] /\
  range 0 0 1 = Some [] /\ range 0 5 0 = None.
Proof. repeat split. Qed.

(** ** Lemmas on the builtins *)

Lemma length_list_of_str (s : string) :
  length (list_of_str s) = String.length s.
Proof. induction s as [|c s IH]; simpl; [reflexivity | now rewrite IH]. Qed.

Lemma lookup_list_of_str (s : string) (i : nat) :
  list_of_str s !! i = char_item <$> String.get i s.
Proof.
  revert i; induction s as [|c s IH]; intros [|i]; simpl; try reflexivity.
  apply IH.
Qed.

Lemma Forall_is_char_list_of_str (s : string) : Forall is_char (list_of_str s).
Proof.
  induction s as [|c s IH]; simpl; constructor; [now exists c | exact IH].
Qed.

Lemma join_empty_list_of_str (s : string) : join_empty (list_of_str s) = Ok s.
Proof. induction s as [|c s IH]; simpl; [reflexivity | now rewrite IH]. Qed.

(** Joining one-character items gives the string these items are the
    characters of. *)
Lemma join_empty_chars (l : list value) :
  Forall is_char l -> exists s, join_empty l = Ok s /\ list_of_str s = l.
Proof.
  induction 1 as [|v l [c ->] _ [s [Hs Hl]]]; simpl.
  - now exists "".
  - exists (String c s). rewrite Hs. simpl. now rewrite Hl.
Qed.

(** A string whose items are those of [R] with item [k] replaced: same
    length, the new character at [k], the characters of [R] elsewhere. *)
Lemma list_of_str_insert (r R : string) (k : nat) (x : ascii) :
  list_of_str r = <[k := char_item x]> (list_of_str R) ->
  (k < String.length R)%nat ->
  String.length r = String.length R /\
  String.get k r = Some x /\
  forall i : nat, i <> k -> String.get i r = String.get i R.
Proof.
  intros Hr Hk. split; [|split].
  - rewrite <- (length_list_of_str r), Hr, length_insert.
    apply length_list_of_str.
  - assert (H : list_of_str r !! k = Some (char_item x)).
    { rewrite Hr. apply list_lookup_insert_eq. now rewrite length_list_of_str. }
    rewrite lookup_list_of_str in H.
    destruct (String.get k r) as [y|]; simpl in H; [|discriminate].
    now injection H as ->.
  - intros i Hi.
    assert (H : list_of_str r !! i = list_of_str R !! i).
    { rewrite Hr. apply list_lookup_insert_ne. congruence. }
    rewrite !lookup_list_of_str in H.
    destruct (String.get i r) as [y|], (String.get i R) as [z|];
      simpl in H; try discriminate; [|reflexivity].
    now injection H as ->.
Qed.

Lemma setitem_Ok (l : list value) (i : Z) (x : value) :
  - Z.of_nat (length l) <= i < Z.of_nat (length l) ->
  setitem l i x =
  Ok (<[Z.to_nat (if i <? 0 then i + Z.of_nat (length l) else i) := x]> l).
Proof.
  intros Hi. unfold setitem.
  destruct (Z.ltb_spec i (- Z.of_nat (length l))); [lia|].
  destruct (Z.leb_spec (Z.of_nat (length l)) i); [lia|]. reflexivity.
Qed.

Lemma setitem_IndexError (l : list value) (i : Z) (x : value) :
  i < - Z.of_nat (length l) \/ Z.of_nat (length l) <= i ->
  setitem l i x = Raise IndexError.
Proof.
  intros Hi. unfold setitem.
  destruct (Z.ltb_spec i (- Z.of_nat (length l))); [reflexivity|].
  destruct (Z.leb_spec (Z.of_nat (length l)) i); [reflexivity|]. lia.
Qed.

Lemma setitem_inv (l l' : list value) (i : Z) (x : value) :
  setitem l i x = Ok l' ->
  - Z.of_nat (length l) <= i < Z.of_nat (length l) /\
  l' = <[Z.to_nat (if i <? 0 then i + Z.of_nat (length l) else i) := x]> l.
Proof.
  unfold setitem.
  destruct (Z.ltb_spec i (- Z.of_nat (length l))); [discriminate|].
  destruct (Z.leb_spec (Z.of_nat (length l)) i); [discriminate|].
  simpl. intros [= <-]. split; [lia | reflexivity].
Qed.

Lemma Forall_is_char_insert (l : list value) (i : nat) (c : ascii) :
  Forall is_char l -> Forall is_char (<[i := char_item c]> l).
Proof.
  intros H. apply Forall_insert; [exact H | now exists c].
Qed.

Lemma get_last_char (c : ascii) (s : string) :
  String.get (String.length s) (String c s) = Some (last_char c s).
Proof.
  revert c; induction s as [|c' s IH]; intros c; simpl; [reflexivity|].
  apply IH.
Qed.

Lemma getitem_last (c : ascii) (s : string) :
  getitem (String c s) (-1) = Ok (String (last_char c s) "").
Proof.
  unfold getitem, len. simpl String.length.
  destruct (Z.ltb_spec (-1) (- Z.of_nat (S (String.length s)))); [lia|].
  destruct (Z.leb_spec (Z.of_nat (S (String.length s))) (-1)); [lia|].
  simpl orb. cbv iota.
  change (-1 <? 0) with true. cbv iota.
  replace (Z.to_nat (-1 + Z.of_nat (S (String.length s))))
    with (String.length s) by lia.
  now rewrite get_last_char.
Qed.

(** A token of at most three characters has nothing between its second
    and its last character. *)
Lemma slice_short (mut : string) :
  (String.length mut <= 3)%nat -> slice mut 2 (-1) = "".
Proof.
  destruct mut as [|a [|b [|c [|d r]]]]; simpl; intros H;
    try reflexivity; lia.
Qed.

Lemma substring_0_append (m t : string) :
  substring 0 (String.length m) (m ++ t) = m.
Proof.
  induction m as [|c m IH]; simpl; [now destruct t | now rewrite IH].
Qed.

Lemma length_append (m t : string) :
  String.length (m ++ t) = (String.length m + String.length t)%nat.
Proof. induction m as [|c m IH]; simpl; [reflexivity | now rewrite IH]. Qed.

(** [mut[2:-1]] drops the first two characters and the last one. *)
Lemma slice_two_last (a b z : ascii) (m : string) :
  slice (String a (String b (m ++ String z ""))) 2 (-1) = m.
Proof.
  unfold slice, slice_bound, len. simpl String.length.
  rewrite length_append. simpl String.length.
  change (2 <? 0) with false. change (-1 <? 0) with true. cbv iota.
  set (n := String.length m).
  replace (Z.to_nat (Z.min 2 (Z.of_nat (S (S (n + 1)))))) with 2%nat by lia.
  replace (Z.to_nat (Z.max (-1 + Z.of_nat (S (S (n + 1)))) 0
                     - Z.min 2 (Z.of_nat (S (S (n + 1)))))) with n by lia.
  simpl. apply substring_0_append.
Qed.

(** ** Splitting on one character *)

Lemma prefix_char (d c : ascii) (s : string) :
  String.prefix (String d "") (String c s) = Ascii.eqb d c.
Proof.
  simpl. destruct (ascii_dec d c) as [->|Hne].
  - rewrite Ascii.eqb_refl. now destruct s.
  - symmetry. now apply Ascii.eqb_neq.
Qed.

Lemma append_assoc_char (cur : string) (c : ascii) (t : string) :
  ((cur ++ String c "") ++ t)%string = (cur ++ String c t)%string.
Proof. induction cur as [|a cur IH]; simpl; [reflexivity | now rewrite IH]. Qed.

Lemma append_empty_r (s : string) : (s ++ "")%string = s.
Proof. induction s as [|a s IH]; simpl; [reflexivity | now rewrite IH]. Qed.

(** A string without the separator is one token. *)
Lemma split_from_no_sep (d : ascii) (t : string) :
  has_char d t = false ->
  forall cur : string, split_from (String d "") t 0 cur = [(cur ++ t)%string].
Proof.
  induction t as [|c t IH]; intros Hno cur.
  - simpl. now rewrite append_empty_r.
  - simpl in Hno. apply orb_false_iff in Hno as [Hc Ht].
    cbn [split_from]. rewrite prefix_char, Hc, (IH Ht).
    now rewrite append_assoc_char.
Qed.

(** The first separator ends the first token. *)
Lemma split_from_sep (d : ascii) (t rest : string) :
  has_char d t = false ->
  forall cur : string,
    split_from (String d "") (t ++ String d rest) 0 cur =
    (cur ++ t)%string :: split_from (String d "") rest 0 "".
Proof.
  induction t as [|c t IH]; intros Hno cur.
  - cbn [append split_from]. rewrite prefix_char, Ascii.eqb_refl.
    now rewrite append_empty_r.
  - simpl in Hno. apply orb_false_iff in Hno as [Hc Ht].
    cbn [append split_from]. rewrite prefix_char, Hc, (IH Ht).
    now rewrite append_assoc_char.
Qed.

(** Splitting undoes joining tokens that do not contain the separator. *)
Lemma split_from_concat (d : ascii) (ts : list string) :
  ts <> [] -> Forall (fun t => has_char d t = false) ts ->
  split_from (String d "") (String.concat (String d "") ts) 0 "" = ts.
Proof.
  induction ts as [|t ts IH]; intros Hne Hall; [contradiction|].
  apply Forall_cons in Hall as [Ht Hall].
  destruct ts as [|t' ts].
  - simpl. now rewrite split_from_no_sep.
  - change (String.concat (String d "") (t :: t' :: ts))
      with (t ++ String d (String.concat (String d "") (t' :: ts)))%string.
    rewrite split_from_sep by exact Ht. simpl append.
    rewrite IH; [reflexivity | discriminate | exact Hall].
Qed.

(** The tokens [split_from] returns join back to the string, and none of
    them contains the separator. *)
Lemma concat_split_from (d : ascii) (s : string) :
  forall cur : string,
    has_char d cur = false ->
    String.concat (String d "") (split_from (String d "") s 0 cur) = (cur ++ s)%string /\
    Forall (fun t => has_char d t = false) (split_from (String d "") s 0 cur) /\
    split_from (String d "") s 0 cur <> [].
Proof.
  assert (Happ : forall (cur : string) (c : ascii),
             has_char d cur = false -> Ascii.eqb d c = false ->
             has_char d (cur ++ String c "") = false).
  { induction cur as [|a cur IHc]; simpl; intros c Hcur Hc.
    - now rewrite Hc.
    - apply orb_false_iff in Hcur as [Ha Hcur].
      now rewrite Ha, (IHc c Hcur Hc). }
  induction s as [|c s IH]; intros cur Hcur.
  - simpl. rewrite append_empty_r. repeat split; [|discriminate].
    now constructor.
  - cbn [split_from]. rewrite prefix_char.
    destruct (Ascii.eqb d c) eqn:Hc.
    + apply Ascii.eqb_eq in Hc as <-.
      destruct (IH "" eq_refl) as (Hj & Hall & Hne).
      repeat split; [| now constructor | discriminate].
      simpl String.length. simpl Nat.sub.
      destruct (split_from (String d "") s 0 "") as [|t ts] eqn:Hs;
        [contradiction|].
      change (String.concat (String d "") (cur :: t :: ts))
        with (cur ++ String d (String.concat (String d "") (t :: ts)))%string.
      now rewrite Hj.
    + destruct (IH (cur ++ String c "")%string (Happ cur c Hcur Hc))
        as (Hj & Hall & Hne).
      repeat split; try assumption.
      now rewrite Hj, append_assoc_char.
Qed.

Lemma tokens_of_exists (x : string) : exists ts, tokens_of x ts.
Proof.
  exists (split_from ":" x 0 "").
  destruct (concat_split_from ":" x "" eq_refl) as (Hj & Hall & Hne).
  now repeat split.
Qed.

Lemma split_tokens_of (x : string) (ts : list string) :
  tokens_of x ts -> split x ":" = Ok ts.
Proof.
  intros (Hne & Hall & <-). unfold split.
  now rewrite (split_from_concat ":" ts Hne Hall).
Qed.

(** ** Lemmas on [aa_pos] and [aa_letter] *)

Lemma aa_letter_nonempty (c : ascii) (s : string) :
  aa_letter (VStr (String c s)) = Ok (char_item (last_char c s)).
Proof.
  unfold aa_letter. simpl truthy. simpl negb. cbv iota.
  now rewrite getitem_last.
Qed.

Lemma aa_pos_empty : aa_pos (VStr "") = Ok (VStr "").
Proof. reflexivity. Qed.

Lemma aa_pos_nonempty (c : ascii) (s : string) :
  aa_pos (VStr (String c s)) =
  let* z := int (slice (String c s) 2 (-1)) in Ok (VInt z).
Proof. reflexivity. Qed.

(** [aa_pos] gives an [int] only for a non-empty token. *)
Lemma aa_pos_VInt_nonempty (mut : string) (p : Z) :
  aa_pos (VStr mut) = Ok (VInt p) -> exists c s, mut = String c s.
Proof.
  destruct mut as [|c s]; [discriminate | intros _; now exists c, s].
Qed.

(** On a token, [aa_pos] raises, or returns the empty token, or an [int]. *)
Lemma aa_pos_cases (mut : string) :
  (exists e, aa_pos (VStr mut) = Raise e) \/
  (mut = "" /\ aa_pos (VStr mut) = Ok (VStr "")) \/
  (exists p, aa_pos (VStr mut) = Ok (VInt p)).
Proof.
  destruct mut as [|c s].
  - right; left; split; reflexivity.
  - rewrite aa_pos_nonempty.
    destruct (int (slice (String c s) 2 (-1))) as [z|e]; simpl.
    + right; right; now exists z.
    + left; now exists e.
Qed.

(** On a token of four characters or more, [aa_pos] is [int] of what is
    left without the first two characters and the last one. *)
Lemma aa_pos_two_last (a b z : ascii) (m : string) :
  aa_pos (VStr (String a (String b (m ++ String z "")))) =
  let* p := int m in Ok (VInt p).
Proof. now rewrite aa_pos_nonempty, slice_two_last. Qed.

(** ** Lemmas on the loop of [mut2seq] *)

Lemma mut2seq_body_raise (wt_sequence : string) (l : list value) (mut : string) (e : exn) :
  aa_pos (VStr mut) = Raise e -> mut2seq_body wt_sequence l mut = Raise e.
Proof. intros H. unfold mut2seq_body. now rewrite H. Qed.

Lemma mut2seq_body_empty (wt_sequence : string) (l : list value) :
  mut2seq_body wt_sequence l "" = Raise TypeError.
Proof. reflexivity. Qed.

(** What the body does with a token that parses to the integer [p]. *)
Lemma mut2seq_body_VInt (wt_sequence : string) (l : list value)
  (c : ascii) (s : string) (p : Z) :
  aa_pos (VStr (String c s)) = Ok (VInt p) ->
  mut2seq_body wt_sequence l (String c s) =
  if p =? 0 then Raise ValueError_zero
  else if len wt_sequence <? p then Raise ValueError_too_large
       else setitem l p (char_item (last_char c s)).
Proof.
  intros H. unfold mut2seq_body. rewrite H, aa_letter_nonempty. simpl.
  destruct (p =? 0); [reflexivity|].
  destruct (len wt_sequence <? p); reflexivity.
Qed.

(** When the body returns, the token was not empty, its position [p] was
    an integer other than 0, at most [len(wt_sequence)] and a valid index
    of the list, and one item was replaced by the last character. *)
Lemma mut2seq_body_inv (wt_sequence : string) (l l' : list value) (mut : string) :
  mut2seq_body wt_sequence l mut = Ok l' ->
  exists c s p,
    mut = String c s /\ aa_pos (VStr mut) = Ok (VInt p) /\
    p <> 0 /\ p <= len wt_sequence /\
    - Z.of_nat (length l) <= p < Z.of_nat (length l) /\
    l' = <[written_index p (Z.of_nat (length l)) := char_item (last_char c s)]> l.
Proof.
  intros H.
  destruct (aa_pos_cases mut) as [[e He] | [[-> _] | [p Hp]]].
  - rewrite (mut2seq_body_raise _ _ _ _ He) in H. discriminate.
  - discriminate.
  - destruct (aa_pos_VInt_nonempty _ _ Hp) as (c & s & ->).
    rewrite (mut2seq_body_VInt _ _ _ _ _ Hp) in H.
    destruct (Z.eqb_spec p 0); [discriminate|].
    destruct (Z.ltb_spec (len wt_sequence) p); [discriminate|].
    apply setitem_inv in H. destruct H as [Hr ->].
    exists c, s, p. repeat split; try assumption; lia.
Qed.

Lemma mut2seq_body_chars (wt_sequence : string) (l l' : list value) (mut : string) :
  mut2seq_body wt_sequence l mut = Ok l' ->
  Forall is_char l -> Forall is_char l' /\ length l' = length l.
Proof.
  intros H Hl.
  destruct (mut2seq_body_inv _ _ _ _ H) as (c & s & p & _ & _ & _ & _ & _ & ->).
  split; [now apply Forall_is_char_insert | apply length_insert].
Qed.

Lemma mut2seq_loop_chars (wt_sequence : string) (mutations : list string) :
  forall l l' : list value,
    mut2seq_loop wt_sequence mutations l = Ok l' ->
    Forall is_char l -> Forall is_char l' /\ length l' = length l.
Proof.
  induction mutations as [|mut rest IH]; intros l l' H Hl; simpl in H.
  - injection H as <-. now split.
  - destruct (mut2seq_body wt_sequence l mut) as [l1|e] eqn:Hb; [|discriminate].
    simpl in H.
    destruct (mut2seq_body_chars _ _ _ _ Hb Hl) as [Hc1 Hn1].
    destruct (IH _ _ H Hc1) as [Hc' Hn'].
    split; [exact Hc' | congruence].
Qed.

(** The loop stops at the first token on which [aa_pos] raises, if an
    earlier token has not stopped it already. *)
Lemma mut2seq_loop_fails (wt_sequence : string) (mutations : list string)
  (mut : string) (e : exn) :
  In mut mutations -> aa_pos (VStr mut) = Raise e ->
  forall l : list value, fails (mut2seq_loop wt_sequence mutations l).
Proof.
  intros Hin He.
  induction mutations as [|m rest IH]; intros l; [contradiction|].
  simpl. destruct (mut2seq_body wt_sequence l m) as [l1|e1] eqn:Hb.
  - simpl. destruct Hin as [-> | Hin].
    + rewrite (mut2seq_body_raise _ _ _ _ He) in Hb. discriminate.
    + now apply IH.
  - now exists e1.
Qed.

Lemma mut2seq_loop_app (wt_sequence : string) (pre post : list string) :
  forall l : list value,
    mut2seq_loop wt_sequence (pre ++ post) l =
    let* l1 := mut2seq_loop wt_sequence pre l in mut2seq_loop wt_sequence post l1.
Proof.
  induction pre as [|m pre IH]; intros l; simpl; [reflexivity|].
  destruct (mut2seq_body wt_sequence l m) as [l1|e]; simpl; [apply IH | reflexivity].
Qed.

(** [mut2seq] on a non-empty mutation string. *)
Lemma mut2seq_nonempty (c : ascii) (s wt_sequence delimiter : string) :
  mut2seq (VStr (String c s)) wt_sequence delimiter =
  let* mutations := split (String c s) delimiter in
  let* mutant_sequence :=
    mut2seq_loop wt_sequence mutations (list_of_str wt_sequence) in
  join_empty mutant_sequence.
Proof. reflexivity. Qed.

(** [mut2seq] on a mutation string that is one token with an integer
    position that passes both checks and is a valid index. *)
Lemma mut2seq_single_token (c : ascii) (s R delimiter : string) (p : Z) :
  split (String c s) delimiter = Ok [String c s] ->
  aa_pos (VStr (String c s)) = Ok (VInt p) ->
  p <> 0 -> - len R <= p < len R ->
  exists r,
    mut2seq (VStr (String c s)) R delimiter = Ok r /\
    list_of_str r =
    <[written_index p (len R) := char_item (last_char c s)]> (list_of_str R).
Proof.
  intros Hsplit Hpos Hp0 Hp.
  rewrite mut2seq_nonempty, Hsplit. simpl.
  rewrite (mut2seq_body_VInt _ _ _ _ _ Hpos).
  destruct (Z.eqb_spec p 0); [contradiction|].
  destruct (Z.ltb_spec (len R) p); [lia|].
  rewrite setitem_Ok by (rewrite length_list_of_str; exact Hp).
  simpl. rewrite length_list_of_str. fold (len R). fold (written_index p (len R)).
  destruct (join_empty_chars
              (<[written_index p (len R) := char_item (last_char c s)]> (list_of_str R)))
    as [r [Hj Hr]].
  { apply Forall_is_char_insert, Forall_is_char_list_of_str. }
  exists r. now split.
Qed.

(** ** Which exception comes from where *)

Lemma int_raise (s : string) (e : exn) : int s = Raise e -> e = ValueError_int.
Proof.
  unfold int. intros H.
  repeat match type of H with
         | context [match ?x with _ => _ end] => destruct x
         end; congruence.
Qed.

Lemma aa_pos_raise (mut : string) (e : exn) :
  aa_pos (VStr mut) = Raise e -> e = ValueError_int.
Proof.
  destruct mut as [|c s]; [discriminate|].
  rewrite aa_pos_nonempty.
  destruct (int (slice (String c s) 2 (-1))) as [z|e'] eqn:Hint; [discriminate|].
  simpl. intros [= <-]. exact (int_raise _ _ Hint).
Qed.

Lemma join_empty_raise (l : list value) (e : exn) :
  join_empty l = Raise e -> e = TypeError.
Proof.
  induction l as [|[|s|z] l IH]; simpl; try congruence.
  destruct (join_empty l) as [r|e']; simpl; [discriminate|].
  intros [= <-]. now apply IH.
Qed.

Lemma not_InvalidPositionError_int : ~ InvalidPositionError ValueError_int.
Proof. intros [H|H]; discriminate. Qed.

Lemma not_InvalidPositionError_TypeError : ~ InvalidPositionError TypeError.
Proof. intros [H|H]; discriminate. Qed.

Lemma not_InvalidPositionError_IndexError : ~ InvalidPositionError IndexError.
Proof. intros [H|H]; discriminate. Qed.

(** The loop body raises one of its own two [ValueError]s only on a token
    whose position is 0 or greater than [len(wt_sequence)]. *)
Lemma mut2seq_body_invalid_position (wt_sequence : string) (l : list value)
  (mut : string) (e : exn) :
  mut2seq_body wt_sequence l mut = Raise e -> InvalidPositionError e ->
  exists p, aa_pos (VStr mut) = Ok (VInt p) /\ (p = 0 \/ len wt_sequence < p).
Proof.
  intros H He.
  destruct (aa_pos_cases mut) as [[e' He'] | [[-> _] | [p Hp]]].
  - rewrite (mut2seq_body_raise _ _ _ _ He') in H. injection H as <-.
    rewrite (aa_pos_raise _ _ He') in He.
    now apply not_InvalidPositionError_int in He.
  - rewrite mut2seq_body_empty in H. injection H as <-.
    now apply not_InvalidPositionError_TypeError in He.
  - exists p. split; [exact Hp|].
    destruct (aa_pos_VInt_nonempty _ _ Hp) as (c & s & ->).
    rewrite (mut2seq_body_VInt _ _ _ _ _ Hp) in H.
    destruct (Z.eqb_spec p 0); [now left|].
    destruct (Z.ltb_spec (len wt_sequence) p); [now right|].
    unfold setitem in H.
    destruct ((p <? - Z.of_nat (length l)) || (Z.of_nat (length l) <=? p));
      [|discriminate].
    injection H as <-. now apply not_InvalidPositionError_IndexError in He.
Qed.

Lemma mut2seq_loop_invalid_position (wt_sequence : string)
  (mutations : list string) (e : exn) :
  InvalidPositionError e ->
  forall l : list value,
    mut2seq_loop wt_sequence mutations l = Raise e ->
    exists mut p,
      In mut mutations /\ aa_pos (VStr mut) = Ok (VInt p) /\
      (p = 0 \/ len wt_sequence < p).
Proof.
  intros He. induction mutations as [|m rest IH]; intros l H; [discriminate|].
  simpl in H.
  destruct (mut2seq_body wt_sequence l m) as [l1|e1] eqn:Hb; simpl in H.
  - destruct (IH _ H) as (mut & p & Hin & Hp).
    exists mut, p. split; [now right | exact Hp].
  - injection H as ->.
    destruct (mut2seq_body_invalid_position _ _ _ _ Hb He) as (p & Hp).
    exists m, p. split; [now left | exact Hp].
Qed.

Lemma mut2seq_body_writable (wt_sequence : string) (l : list value) (mut : string) :
  writable wt_sequence mut -> Z.of_nat (length l) = len wt_sequence ->
  exists l', mut2seq_body wt_sequence l mut = Ok l' /\ length l' = length l.
Proof.
  intros (p & Hp & Hp0 & Hr) Hl.
  destruct (aa_pos_VInt_nonempty _ _ Hp) as (c & s & ->).
  rewrite (mut2seq_body_VInt _ _ _ _ _ Hp).
  destruct (Z.eqb_spec p 0); [contradiction|].
  destruct (Z.ltb_spec (len wt_sequence) p); [lia|].
  rewrite setitem_Ok by lia.
  eexists. split; [reflexivity | apply length_insert].
Qed.

Lemma mut2seq_loop_writable (wt_sequence : string) (mutations : list string) :
  Forall (writable wt_sequence) mutations ->
  forall l : list value,
    Z.of_nat (length l) = len wt_sequence ->
    exists l',
      mut2seq_loop wt_sequence mutations l = Ok l' /\ length l' = length l.
Proof.
  induction 1 as [|m rest Hm _ IH]; intros l Hl; simpl.
  - now exists l.
  - destruct (mut2seq_body_writable wt_sequence l m Hm Hl) as (l1 & -> & Hn1).
    simpl. destruct (IH l1) as (l' & Hl' & Hn'); [congruence|].
    exists l'. split; [exact Hl' | congruence].
Qed.

(** ** What the loop of [mut2seq] writes *)

Lemma token_index_VInt (wt_sequence mut : string) (p : Z) :
  aa_pos (VStr mut) = Ok (VInt p) ->
  token_index wt_sequence mut = written_index p (len wt_sequence).
Proof. intros H. unfold token_index. now rewrite H. Qed.

(** The loop body on a token it accepts: one item is replaced, at the
    index of the token, by the last character of the token. *)
Lemma mut2seq_body_token_index (wt_sequence : string) (l : list value) (mut : string) :
  writable wt_sequence mut -> Z.of_nat (length l) = len wt_sequence ->
  exists x,
    aa_letter (VStr mut) = Ok (char_item x) /\
    mut2seq_body wt_sequence l mut =
    Ok (<[token_index wt_sequence mut := char_item x]> l) /\
    (token_index wt_sequence mut < length l)%nat.
Proof.
  intros (p & Hp & Hp0 & Hr) Hl.
  destruct (aa_pos_VInt_nonempty _ _ Hp) as (c & s & ->).
  exists (last_char c s). split; [apply aa_letter_nonempty|].
  rewrite (token_index_VInt _ _ _ Hp), (mut2seq_body_VInt _ _ _ _ _ Hp).
  destruct (Z.eqb_spec p 0); [contradiction|].
  destruct (Z.ltb_spec (len wt_sequence) p); [lia|].
  rewrite setitem_Ok by lia. rewrite Hl. split; [reflexivity|].
  unfold written_index. destruct (Z.ltb_spec p 0); lia.
Qed.

Lemma mut2seq_body_Ok_writable (wt_sequence : string) (l l' : list value) (mut : string) :
  mut2seq_body wt_sequence l mut = Ok l' ->
  Z.of_nat (length l) = len wt_sequence ->
  writable wt_sequence mut.
Proof.
  intros H Hl.
  destruct (mut2seq_body_inv _ _ _ _ H) as (c & s & p & _ & Hp & Hp0 & _ & Hr & _).
  exists p. repeat split; try assumption; lia.
Qed.

Lemma mut2seq_body_length (wt_sequence : string) (l l' : list value) (mut : string) :
  mut2seq_body wt_sequence l mut = Ok l' -> length l' = length l.
Proof.
  intros H.
  destruct (mut2seq_body_inv _ _ _ _ H) as (c & s & p & _ & _ & _ & _ & _ & ->).
  apply length_insert.
Qed.

Lemma mut2seq_loop_length (wt_sequence : string) (mutations : list string) :
  forall l l' : list value,
    mut2seq_loop wt_sequence mutations l = Ok l' -> length l' = length l.
Proof.
  induction mutations as [|m rest IH]; intros l l' H; simpl in H.
  - now injection H as <-.
  - destruct (mut2seq_body wt_sequence l m) as [l1|e] eqn:Hb; [|discriminate].
    simpl in H. rewrite (IH _ _ H). exact (mut2seq_body_length _ _ _ _ Hb).
Qed.

(** The loop returns exactly when it accepts every token. *)
Lemma mut2seq_loop_Ok_writable (wt_sequence : string) (mutations : list string) :
  forall l l' : list value,
    mut2seq_loop wt_sequence mutations l = Ok l' ->
    Z.of_nat (length l) = len wt_sequence ->
    Forall (writable wt_sequence) mutations.
Proof.
  induction mutations as [|m rest IH]; intros l l' H Hl; [constructor|].
  simpl in H.
  destruct (mut2seq_body wt_sequence l m) as [l1|e] eqn:Hb; [|discriminate].
  simpl in H. constructor.
  - exact (mut2seq_body_Ok_writable _ _ _ _ Hb Hl).
  - apply (IH l1 l' H). now rewrite (mut2seq_body_length _ _ _ _ Hb).
Qed.

(** An index that no token writes keeps its item. *)
Lemma mut2seq_loop_untouched (wt_sequence : string) (mutations : list string) (i : nat) :
  forall l l' : list value,
    mut2seq_loop wt_sequence mutations l = Ok l' ->
    Z.of_nat (length l) = len wt_sequence ->
    (forall mut, In mut mutations -> token_index wt_sequence mut <> i) ->
    l' !! i = l !! i.
Proof.
  induction mutations as [|m rest IH]; intros l l' H Hl Hno; simpl in H.
  - now injection H as <-.
  - destruct (mut2seq_body wt_sequence l m) as [l1|e] eqn:Hb; [|discriminate].
    simpl in H.
    pose proof (mut2seq_body_Ok_writable _ _ _ _ Hb Hl) as Hw.
    destruct (mut2seq_body_token_index _ l _ Hw Hl) as (x & _ & Hb' & _).
    rewrite Hb' in Hb. injection Hb as <-.
    rewrite (IH _ _ H).
    + apply list_lookup_insert_ne. apply Hno. now left.
    + now rewrite length_insert.
    + intros mut Hin. apply Hno. now right.
Qed.

(** The item at the index of a token is the last character of that token
    when no later token writes the same index. *)
Lemma mut2seq_loop_last_write (wt_sequence : string) (pre post : list string)
  (mut : string) (x : ascii) (l l' : list value) :
  mut2seq_loop wt_sequence (pre ++ mut :: post) l = Ok l' ->
  Z.of_nat (length l) = len wt_sequence ->
  aa_letter (VStr mut) = Ok (char_item x) ->
  (forall m, In m post -> token_index wt_sequence m <> token_index wt_sequence mut) ->
  l' !! token_index wt_sequence mut = Some (char_item x).
Proof.
  intros H Hl Hx Hpost.
  rewrite mut2seq_loop_app in H.
  destruct (mut2seq_loop wt_sequence pre l) as [l1|e] eqn:Hpre; [|discriminate].
  simpl in H.
  pose proof (mut2seq_loop_length _ _ _ _ Hpre) as Hn1.
  assert (Hl1 : Z.of_nat (length l1) = len wt_sequence) by congruence.
  destruct (mut2seq_body wt_sequence l1 mut) as [l2|e] eqn:Hb; [|discriminate].
  simpl in H.
  pose proof (mut2seq_body_Ok_writable _ _ _ _ Hb Hl1) as Hw.
  destruct (mut2seq_body_token_index _ l1 _ Hw Hl1) as (y & Hy & Hb' & Hlt).
  rewrite Hb' in Hb. injection Hb as <-.
  rewrite Hx in Hy. injection Hy as <-.
  rewrite (mut2seq_loop_untouched _ _ _ _ _ H).
  - now apply list_lookup_insert_eq.
  - now rewrite length_insert.
  - exact Hpost.
Qed.

(** The last element of a list that satisfies a test. *)
Lemma last_occurrence {A : Type} (P : A -> bool) (l : list A) :
  (forall x, In x l -> P x = false) \/
  exists pre m post,
    l = (pre ++ m :: post)%list /\ P m = true /\
    forall x, In x post -> P x = false.
Proof.
  induction l as [|a l IH]; [left; intros x []|].
  destruct IH as [Hnone | (pre & m & post & -> & Hm & Hpost)].
  - destruct (P a) eqn:Ha.
    + right. exists [], a, l. now repeat split.
    + left. intros x [<-|Hin]; [exact Ha | now apply Hnone].
  - right. exists (a :: pre), m, post. now repeat split.
Qed.

(** The loop uses the reference sequence through its length only. *)
Lemma mut2seq_body_len (wt1 wt2 : string) (l : list value) (mut : string) :
  len wt1 = len wt2 -> mut2seq_body wt1 l mut = mut2seq_body wt2 l mut.
Proof. intros H. unfold mut2seq_body. now rewrite H. Qed.

Lemma mut2seq_loop_len (wt1 wt2 : string) (mutations : list string) :
  len wt1 = len wt2 ->
  forall l, mut2seq_loop wt1 mutations l = mut2seq_loop wt2 mutations l.
Proof.
  intros H. induction mutations as [|m rest IH]; intros l; simpl; [reflexivity|].
  rewrite (mut2seq_body_len wt1 wt2 l m H).
  destruct (mut2seq_body wt2 l m); simpl; [apply IH | reflexivity].
Qed.

(** Running the loop again on its own result changes nothing. *)
Lemma mut2seq_loop_again (wt_sequence : string) (mutations : list string)
  (l l' : list value) :
  mut2seq_loop wt_sequence mutations l = Ok l' ->
  Z.of_nat (length l) = len wt_sequence ->
  mut2seq_loop wt_sequence mutations l' = Ok l'.
Proof.
  intros H Hl.
  pose proof (mut2seq_loop_Ok_writable _ _ _ _ H Hl) as Hw.
  assert (Hl' : Z.of_nat (length l') = len wt_sequence).
  { now rewrite (mut2seq_loop_length _ _ _ _ H). }
  destruct (mut2seq_loop_writable _ _ Hw l' Hl') as (l'' & H'' & _).
  rewrite H''. f_equal. apply list_eq. intros i.
  destruct (last_occurrence (fun m => Nat.eqb (token_index wt_sequence m) i) mutations)
    as [Hnone | (pre & m & post & -> & Hm & Hpost)].
  - apply (mut2seq_loop_untouched _ _ _ _ _ H'' Hl').
    intros mut Hin. apply Nat.eqb_neq. now apply Hnone.
  - apply Nat.eqb_eq in Hm. subst i.
    assert (Hm : writable wt_sequence m).
    { rewrite List.Forall_forall in Hw. apply Hw, in_elt. }
    destruct (mut2seq_body_token_index _ l _ Hm Hl) as (x & Hx & _).
    assert (Hpost' : forall m', In m' post ->
              token_index wt_sequence m' <> token_index wt_sequence m).
    { intros m' Hin. apply Nat.eqb_neq. now apply Hpost. }
    rewrite (mut2seq_loop_last_write _ _ _ _ _ _ _ H'' Hl' Hx Hpost').
    now rewrite (mut2seq_loop_last_write _ _ _ _ _ _ _ H Hl Hx Hpost').
Qed.

Lemma NoDup_map_In_eq {A B : Type} (f : A -> B) (l : list A) (a b : A) :
  List.NoDup (map f l) -> In a l -> In b l -> f a = f b -> a = b.
Proof.
  induction l as [|c l IH]; intros Hnd Ha Hb Hf; [contradiction|].
  simpl in Hnd. apply List.NoDup_cons_iff in Hnd as [Hc Hnd].
  destruct Ha as [<-|Ha], Hb as [<-|Hb]; try reflexivity.
  - exfalso. apply Hc. rewrite Hf. now apply in_map.
  - exfalso. apply Hc. rewrite <- Hf. now apply in_map.
  - now apply IH.
Qed.

(** When the tokens write pairwise different indices, their order does
    not matter. *)
Lemma mut2seq_loop_permutation (wt_sequence : string) (mutations mutations' : list string)
  (l l' : list value) :
  mut2seq_loop wt_sequence mutations l = Ok l' ->
  Z.of_nat (length l) = len wt_sequence ->
  Permutation mutations mutations' ->
  List.NoDup (map (token_index wt_sequence) mutations) ->
  mut2seq_loop wt_sequence mutations' l = Ok l'.
Proof.
  intros H Hl Hperm Hnd.
  pose proof (mut2seq_loop_Ok_writable _ _ _ _ H Hl) as Hw.
  assert (Hw' : Forall (writable wt_sequence) mutations').
  { rewrite List.Forall_forall in *. intros m Hin. apply Hw.
    now apply (Permutation_in _ (Permutation_sym Hperm)). }
  destruct (mut2seq_loop_writable _ _ Hw' l Hl) as (l'' & H'' & _).
  rewrite H''. f_equal. apply list_eq. intros i.
  destruct (last_occurrence (fun m => Nat.eqb (token_index wt_sequence m) i) mutations')
    as [Hnone | (pre & m & post & Heq & Hm & Hpost)].
  - rewrite (mut2seq_loop_untouched _ _ i _ _ H'' Hl).
    + symmetry. apply (mut2seq_loop_untouched _ _ i _ _ H Hl).
      intros mut Hin. apply Nat.eqb_neq, Hnone.
      now apply (Permutation_in _ Hperm).
    + intros mut Hin. apply Nat.eqb_neq. now apply Hnone.
  - apply Nat.eqb_eq in Hm. subst i.
    assert (Hin' : In m mutations') by (rewrite Heq; apply in_elt).
    assert (Hin : In m mutations).
    { now apply (Permutation_in _ (Permutation_sym Hperm)). }
    assert (Hm : writable wt_sequence m).
    { rewrite List.Forall_forall in Hw. now apply Hw. }
    destruct (mut2seq_body_token_index _ l _ Hm Hl) as (x & Hx & _).
    rewrite Heq in H''.
    rewrite (mut2seq_loop_last_write _ _ _ _ _ _ _ H'' Hl Hx).
    2:{ intros m' Hin0. apply Nat.eqb_neq. now apply Hpost. }
    destruct (in_split _ _ Hin) as (pre0 & post0 & Heq0).
    rewrite Heq0 in H.
    rewrite (mut2seq_loop_last_write _ _ _ _ _ _ _ H Hl Hx); [reflexivity|].
    intros m' Hin0 Hidx.
    assert (Hm' : In m' mutations) by (rewrite Heq0; apply in_or_app; right; now right).
    pose proof (NoDup_map_In_eq _ _ _ _ Hnd Hm' Hin Hidx) as ->.
    rewrite Heq0 in Hnd. rewrite map_app in Hnd. simpl in Hnd.
    apply List.NoDup_remove_2 in Hnd. apply Hnd.
    apply in_or_app. right. now apply in_map.
Qed.

(** ** From the loop to [mut2seq] *)

Lemma list_of_str_inj (a b : string) : list_of_str a = list_of_str b -> a = b.
Proof.
  intros H. pose proof (join_empty_list_of_str a) as Ha.
  rewrite H, join_empty_list_of_str in Ha. now injection Ha.
Qed.

Lemma lookup_list_of_str_eq (a b : string) (i : nat) :
  list_of_str a !! i = list_of_str b !! i -> String.get i a = String.get i b.
Proof.
  rewrite !lookup_list_of_str.
  destruct (String.get i a) as [x|], (String.get i b) as [y|]; simpl;
    intros H; try discriminate; [|reflexivity].
  now injection H as ->.
Qed.

Lemma lookup_list_of_str_Some (a : string) (i : nat) (x : ascii) :
  list_of_str a !! i = Some (char_item x) -> String.get i a = Some x.
Proof.
  rewrite lookup_list_of_str.
  destruct (String.get i a) as [y|]; simpl; intros H; [|discriminate].
  now injection H as ->.
Qed.

(** On a non-empty mutation string that [split] cuts into [mutations],
    [mut2seq] returns [r] exactly when the loop turns the characters of
    the reference into the characters of [r]. *)
Lemma mut2seq_Ok_loop (c : ascii) (s wt_sequence delimiter r : string)
  (mutations : list string) :
  split (String c s) delimiter = Ok mutations ->
  mut2seq (VStr (String c s)) wt_sequence delimiter = Ok r <->
  mut2seq_loop wt_sequence mutations (list_of_str wt_sequence) = Ok (list_of_str r).
Proof.
  intros Hsplit. rewrite mut2seq_nonempty, Hsplit. simpl. split.
  - destruct (mut2seq_loop wt_sequence mutations (list_of_str wt_sequence))
      as [l|e] eqn:Hloop; [|discriminate].
    simpl. intros Hj.
    destruct (mut2seq_loop_chars _ _ _ _ Hloop (Forall_is_char_list_of_str _))
      as [Hc _].
    destruct (join_empty_chars l Hc) as (r' & Hr' & <-).
    rewrite Hr' in Hj. now injection Hj as <-.
  - intros ->. simpl. apply join_empty_list_of_str.
Qed.

Lemma length_list_of_str_len (s : string) :
  Z.of_nat (length (list_of_str s)) = len s.
Proof. now rewrite length_list_of_str. Qed.

(** The first token [split_from] returns starts with the token read so
    far. *)
Lemma split_from_first (sep s : string) :
  forall (skip : nat) (cur : string),
    exists t rest, split_from sep s skip cur = (cur ++ t)%string :: rest.
Proof.
  induction s as [|c s IH]; intros skip cur.
  - exists "", []. simpl. now rewrite append_empty_r.
  - destruct skip as [|k].
    + cbn [split_from]. destruct (String.prefix sep (String c s)).
      * exists "", (split_from sep s (String.length sep - 1) "").
        now rewrite append_empty_r.
      * destruct (IH O (cur ++ String c "")%string) as (t & rest & ->).
        exists (String c t), rest. now rewrite append_assoc_char.
    + cbn [split_from]. apply IH.
Qed.

(** Only the empty string splits into the empty token alone. *)
Lemma split_empty_token (s sep : string) : split s sep = Ok [""] -> s = "".
Proof.
  destruct s as [|c s]; [reflexivity|].
  destruct sep as [|d sep]; [discriminate|].
  unfold split. cbn [split_from].
  destruct (String.prefix (String d sep) (String c s)).
  - destruct (split_from_first (String d sep) s
                (String.length (String d sep) - 1) "") as (t & rest & ->).
    discriminate.
  - destruct (split_from_first (String d sep) s O ("" ++ String c ""))
      as (t & rest & ->).
    discriminate.
Qed.

(** ** Counting *)

(** Two strings differ at no more indices than a list that has all the
    indices at which they differ. *)
Lemma hamming_le (a b : string) (I : list nat) :
  (forall i, differs_at a b i = true -> In i I) ->
  (hamming a b <= length I)%nat.
Proof.
  intros H. unfold hamming. apply List.NoDup_incl_length.
  - apply List.NoDup_filter, List.seq_NoDup.
  - intros i Hi. apply List.filter_In in Hi as [_ Hi]. now apply H.
Qed.

Lemma differs_at_same_get (a b : string) (i : nat) :
  String.get i a = String.get i b -> differs_at a b i = false.
Proof.
  unfold differs_at. intros ->.
  destruct (String.get i b) as [y|]; [|reflexivity].
  now rewrite Ascii.eqb_refl.
Qed.

Lemma hamming_refl (a : string) : hamming a a = O.
Proof.
  assert (H : (hamming a a <= length (@nil nat))%nat).
  { apply hamming_le. intros i Hi.
    now rewrite differs_at_same_get in Hi. }
  simpl in H. lia.
Qed.

Lemma length_split_from_char (d : ascii) (s : string) :
  forall cur : string,
    length (split_from (String d "") s 0 cur) = S (count_char d s).
Proof.
  induction s as [|c s IH]; intros cur; [reflexivity|].
  cbn [split_from count_char]. rewrite prefix_char.
  destruct (Ascii.eqb d c); simpl; now rewrite IH.
Qed.

(** Splitting on one character what two strings and that character make:
    the tokens of the first, then the tokens of the second. *)
Lemma split_from_append_char (d : ascii) (a b : string) :
  forall cur : string,
    split_from (String d "") (a ++ String d b) 0 cur =
    (split_from (String d "") a 0 cur ++ split_from (String d "") b 0 "")%list.
Proof.
  induction a as [|c a IH]; intros cur.
  - cbn [append split_from]. now rewrite prefix_char, Ascii.eqb_refl.
  - cbn [append split_from]. rewrite !prefix_char.
    destruct (Ascii.eqb d c); simpl; now rewrite IH.
Qed.

(** ** [int] on decimal digits *)

Lemma scan_digits_all_digits (s : string) :
  all_digits s = true ->
  forall acc : Z,
    scan_digits s false acc =
    Some (acc * 10 ^ Z.of_nat (String.length s) + decimal s, "").
Proof.
  induction s as [|c s IH]; intros Hd acc.
  - simpl. f_equal. f_equal. lia.
  - simpl in Hd. apply andb_true_iff in Hd as [Hc Hs].
    cbn [scan_digits decimal String.length]. rewrite Hc, (IH Hs).
    f_equal. f_equal.
    rewrite Nat2Z.inj_succ, Z.pow_succ_r by lia. ring.
Qed.

Lemma is_digit_not_space (c : ascii) : is_digit c = true -> is_space c = false.
Proof.
  unfold is_digit, is_space. intros H.
  apply andb_true_iff in H as [H1 H2].
  apply Nat.leb_le in H1. apply Nat.leb_le in H2.
  apply orb_false_iff; split; [apply orb_false_iff; split;
    [apply orb_false_iff; split|]|].
  - apply andb_false_iff. right. apply Nat.leb_gt. lia.
  - apply Nat.eqb_neq. lia.
  - apply Nat.eqb_neq. lia.
  - apply Nat.eqb_neq. lia.
Qed.

Lemma digit_value_range (c : ascii) : is_digit c = true -> 0 <= digit_value c <= 9.
Proof.
  unfold is_digit, digit_value. intros H.
  apply andb_true_iff in H as [H1 H2].
  apply Nat.leb_le in H1. apply Nat.leb_le in H2. lia.
Qed.

Lemma decimal_nonneg (s : string) : all_digits s = true -> 0 <= decimal s.
Proof.
  induction s as [|c s IH]; intros Hd; simpl; [lia|].
  simpl in Hd. apply andb_true_iff in Hd as [Hc Hs].
  pose proof (digit_value_range c Hc). pose proof (IH Hs).
  assert (0 <= 10 ^ Z.of_nat (String.length s)) by (apply Z.pow_nonneg; lia).
  nia.
Qed.

(** [int] reads a non-empty string of digits as the number it denotes. *)
Lemma int_all_digits (s : string) :
  all_digits s = true -> s <> "" -> int s = Ok (decimal s).
Proof.
  intros Hd Hne. destruct s as [|c s]; [contradiction|].
  pose proof Hd as Hd'. simpl in Hd'. apply andb_true_iff in Hd' as [Hc _].
  unfold int. cbn [skip_spaces]. rewrite (is_digit_not_space c Hc).
  assert (Hsign : match String c s with
                  | String "+" r => (1, r)
                  | String "-" r => (-1, r)
                  | _ => (1, String c s)
                  end = (1, String c s)).
  { destruct c as [[] [] [] [] [] [] [] []]; try reflexivity; discriminate. }
  rewrite Hsign. rewrite Hc, (scan_digits_all_digits _ Hd).
  simpl skip_spaces. f_equal. lia.
Qed.

(** ** [range] and [chunker] with a positive size *)

Lemma lookup_map {A B : Type} (f : A -> B) (l : list A) (i : nat) :
  map f l !! i = f <$> (l !! i).
Proof.
  revert i; induction l as [|a l IH]; intros [|i]; simpl; try reflexivity.
  apply IH.
Qed.

Lemma range_positive_step (n size : Z) :
  0 <= n -> 0 < size ->
  range 0 n size =
  Some (map (fun i : nat => Z.of_nat i * size) (seq 0 (chunk_count n size))).
Proof.
  intros Hn Hs. unfold range, chunk_count.
  destruct (Z.eqb_spec size 0); [lia|].
  destruct (Z.ltb_spec 0 size); [|lia].
  f_equal.
  assert (Hk : (if 0 <? n then (n - 0 - 1) / size + 1 else 0) = (n + size - 1) / size).
  { destruct (Z.ltb_spec 0 n).
    - replace (n + size - 1) with (n - 0 - 1 + 1 * size) by ring.
      rewrite Z.div_add by lia. reflexivity.
    - replace n with 0 by lia. symmetry. apply Z.div_small. lia. }
  rewrite Hk. apply map_ext. intros i. lia.
Qed.

(** [i < chunk_count n size] says that chunk [i] starts inside the
    sequence. *)
Lemma chunk_count_lt (n size : Z) (i : nat) :
  0 <= n -> 0 < size ->
  (i < chunk_count n size)%nat <-> Z.of_nat i * size < n.
Proof.
  intros Hn Hs. unfold chunk_count.
  assert (Hq : 0 <= (n + size - 1) / size) by (apply Z.div_pos; lia).
  split; intros H.
  - assert (H1 : Z.of_nat i + 1 <= (n + size - 1) / size) by lia.
    pose proof (Z.mul_div_le (n + size - 1) size Hs). nia.
  - assert (H1 : Z.of_nat i + 1 <= (n + size - 1) / size).
    { apply Z.div_le_lower_bound; lia. }
    lia.
Qed.

Lemma list_slice_chunk {A : Type} (l : list A) (i s : nat) :
  (0 < s)%nat ->
  list_slice l (Z.of_nat i * Z.of_nat s) (Z.of_nat i * Z.of_nat s + Z.of_nat s) =
  take s (drop (i * s) l).
Proof.
  intros Hs. unfold list_slice, slice_bound.
  set (n := Z.of_nat (length l)). set (pos := Z.of_nat i * Z.of_nat s).
  assert (Hpos : pos = Z.of_nat (i * s)) by (unfold pos; lia).
  destruct (Z.ltb_spec pos 0); [lia|].
  destruct (Z.ltb_spec (pos + Z.of_nat s) 0); [lia|].
  destruct (Z.le_gt_cases n pos) as [Hge|Hlt].
  - rewrite !Z.min_r by lia.
    rewrite !drop_ge by lia. now rewrite !take_nil.
  - rewrite (Z.min_l pos n) by lia.
    replace (Z.to_nat pos) with (i * s)%nat by lia.
    destruct (Z.le_gt_cases (pos + Z.of_nat s) n) as [Hin|Hout].
    + rewrite Z.min_l by lia. f_equal. lia.
    + rewrite Z.min_r by lia.
      rewrite !take_ge; [reflexivity | |]; rewrite length_drop; lia.
Qed.

(** With a positive size, chunk [i] is made of the [size] items that
    follow the first [i * size] ones, or of those that are left. *)
Lemma chunker_positive {A : Type} (sequence : list A) (size : Z) :
  0 < size ->
  chunker sequence size =
  Some (map (fun i : nat =>
               take (Z.to_nat size) (drop (i * Z.to_nat size) sequence))
          (seq 0 (chunk_count (Z.of_nat (length sequence)) size))).
Proof.
  intros Hs. unfold chunker.
  rewrite range_positive_step by lia. f_equal.
  rewrite map_map. apply map_ext. intros i.
  replace size with (Z.of_nat (Z.to_nat size)) at 1 2 3 by lia.
  apply list_slice_chunk. lia.
Qed.

Lemma concat_chunks {A : Type} (l : list A) (s k : nat) :
  concat (map (fun i : nat => take s (drop (i * s) l)) (seq 0 k)) =
  take (k * s) l.
Proof.
  induction k as [|k IH]; [now rewrite take_0|].
  rewrite seq_S, map_app, concat_app, IH. simpl.
  rewrite app_nil_r, take_take_drop. f_equal. lia.
Qed.

(** ** The claims *)

(** C1: on the token [A111C] the docstring of [aa_pos] and the
    specification promise 111, the number between the first and the last
    character. The code reads [mut[2:-1]], which also drops the second
    character, and returns 11. *)
Theorem aa_pos_A111C :
  aa_pos (VStr "A111C") = Ok (VInt 11) /\ aa_pos (VStr "A111C") <> Ok (VInt 111).
Proof. split; [reflexivity | discriminate]. Qed.

(** C2: with the notebook's wild type (237 residues) and the default
    delimiter, [mut2seq] on [A111T] writes the [T] at index 11, where the
    wild type has [P]; index 111 keeps the [K] of the wild type, and no
    other index changes. The specification promises the [T] at index 111. *)
Theorem mut2seq_A111T_wt :
  exists r,
    mut2seq (VStr "A111T") wt ":" = Ok r /\
    String.get 11 wt = Some "P"%char /\ String.get 11 r = Some "T"%char /\
    String.get 111 wt = Some "K"%char /\ String.get 111 r = Some "K"%char /\
    forall i : nat, i <> 11%nat -> String.get i r = String.get i wt.
Proof.
  destruct (mut2seq_single_token "A" "111T" wt ":" 11)
    as [r [Hr Hl]]; try reflexivity; try discriminate.
  { change (len wt) with 237. lia. }
  change (written_index 11 (len wt)) with 11%nat in Hl.
  change (last_char "A" "111T") with "T"%char in Hl.
  destruct (list_of_str_insert r wt 11 "T" Hl) as (_ & H11 & Hother).
  { vm_compute. lia. }
  exists r. repeat split; try assumption; try reflexivity.
  rewrite Hother by discriminate. reflexivity.
Qed.

(** C3, as stated, fails: it is not so that every token whose position
    is outside [1 .. len(wt_sequence)] makes [mut2seq] fail with one of
    its position errors. On [SE-1T] with the reference [SKGE] the
    position is -1, and [mut2seq] returns [SKGT]. *)
Lemma out_of_bounds_position_accepted :
  ~ (forall (mutation_string wt_sequence delimiter : string)
       (mutations : list string) (mut : string) (p : Z),
        split mutation_string delimiter = Ok mutations ->
        In mut mutations ->
        aa_pos (VStr mut) = Ok (VInt p) ->
        ~ (1 <= p <= len wt_sequence) ->
        exists e,
          mut2seq (VStr mutation_string) wt_sequence delimiter = Raise e /\
          InvalidPositionError e).
Proof.
  intros H.
  destruct (H "SE-1T" "SKGE" ":" ["SE-1T"] "SE-1T" (-1)) as (e & He & _).
  - reflexivity.
  - now left.
  - reflexivity.
  - lia.
  - discriminate.
Qed.

(** C3, amended: for the tokens [split] makes of a mutation string,
    - [mut2seq] fails with one of its position errors only if some token
      has a position that is 0 or greater than [len(wt_sequence)];
    - it does fail with a position error at a token whose position is 0
      or greater than [len(wt_sequence)] when every token before it is
      accepted (position other than 0, from [-len(wt_sequence)] to
      [len(wt_sequence) - 1]): such a position is never written;
    - it returns when every token has a position from 1 to
      [len(wt_sequence) - 1]. *)
Theorem position_checks (mutation_string wt_sequence delimiter : string)
  (mutations : list string) :
  split mutation_string delimiter = Ok mutations ->
  (forall e : exn,
      mut2seq (VStr mutation_string) wt_sequence delimiter = Raise e ->
      InvalidPositionError e ->
      exists mut p,
        In mut mutations /\ aa_pos (VStr mut) = Ok (VInt p) /\
        (p = 0 \/ len wt_sequence < p)) /\
  (forall (pre post : list string) (mut : string) (p : Z),
      mutations = (pre ++ mut :: post)%list ->
      Forall (writable wt_sequence) pre ->
      aa_pos (VStr mut) = Ok (VInt p) ->
      p = 0 \/ len wt_sequence < p ->
      exists e,
        mut2seq (VStr mutation_string) wt_sequence delimiter = Raise e /\
        InvalidPositionError e) /\
  ((forall mut : string,
       In mut mutations ->
       exists p, aa_pos (VStr mut) = Ok (VInt p) /\ 1 <= p < len wt_sequence) ->
   succeeds (mut2seq (VStr mutation_string) wt_sequence delimiter)).
Proof.
  intros Hsplit.
  destruct mutation_string as [|c s].
  - (* the empty mutation string: the reference is returned; its only
       token is the empty one, which has no integer position *)
    destruct delimiter; [discriminate|]. simpl in Hsplit.
    injection Hsplit as <-.
    split; [intros e H; discriminate|]. split.
    + intros pre post mut p Heq _ Hpos _.
      destruct pre as [|m [|m' pre]]; try discriminate.
      injection Heq as <- _. discriminate.
    + intros _. now exists wt_sequence.
  - rewrite mut2seq_nonempty, Hsplit. simpl.
    assert (Hlen : Z.of_nat (length (list_of_str wt_sequence)) = len wt_sequence).
    { now rewrite length_list_of_str. }
    split; [|split].
    + intros e H He.
      destruct (mut2seq_loop wt_sequence mutations (list_of_str wt_sequence))
        as [l|e'] eqn:Hloop; simpl in H.
      * rewrite (join_empty_raise _ _ H) in He.
        now apply not_InvalidPositionError_TypeError in He.
      * injection H as ->.
        exact (mut2seq_loop_invalid_position _ _ _ He _ Hloop).
    + intros pre post mut p -> Hpre Hpos Hbad.
      rewrite mut2seq_loop_app.
      destruct (mut2seq_loop_writable _ _ Hpre _ Hlen) as (l1 & -> & Hn1).
      simpl.
      destruct (aa_pos_VInt_nonempty _ _ Hpos) as (c' & s' & ->).
      rewrite (mut2seq_body_VInt _ _ _ _ _ Hpos).
      destruct (Z.eqb_spec p 0).
      * exists ValueError_zero. split; [reflexivity | now left].
      * destruct (Z.ltb_spec (len wt_sequence) p); [|lia].
        exists ValueError_too_large. split; [reflexivity | now right].
    + intros Hall.
      assert (Hw : Forall (writable wt_sequence) mutations).
      { apply List.Forall_forall. intros mut Hin.
        destruct (Hall mut Hin) as (p & Hp & Hr).
        exists p. repeat split; try assumption; lia. }
      destruct (mut2seq_loop_writable _ _ Hw _ Hlen) as (l' & Hl' & _).
      rewrite Hl'. simpl.
      destruct (mut2seq_loop_chars _ _ _ _ Hl' (Forall_is_char_list_of_str _))
        as [Hc _].
      destruct (join_empty_chars l' Hc) as (r & Hr & _).
      now exists r.
Qed.

Lemma position_checks_witness :
  (exists e,
      mut2seq (VStr "SK1R:SE-1T:SG0A:SE9A") "SKGE" ":" = Raise e /\
      InvalidPositionError e) /\
  succeeds (mut2seq (VStr "SK1R:SG2A") "SKGE" ":").
Proof.
  split.
  - apply (proj1 (proj2 (position_checks "SK1R:SE-1T:SG0A:SE9A" "SKGE" ":"
                           ["SK1R"; "SE-1T"; "SG0A"; "SE9A"] eq_refl))
             ["SK1R"; "SE-1T"] ["SE9A"] "SG0A" 0).
    + reflexivity.
    + repeat constructor.
      * exists 1. change (len "SKGE") with 4.
        split; [reflexivity | split; [discriminate | lia]].
      * exists (-1). change (len "SKGE") with 4.
        split; [reflexivity | split; [discriminate | lia]].
    + reflexivity.
    + now left.
  - apply (proj2 (proj2 (position_checks "SK1R:SG2A" "SKGE" ":"
                           ["SK1R"; "SG2A"] eq_refl))).
    intros mut [<- | [<- | []]]; [exists 1 | exists 2];
      change (len "SKGE") with 4; (split; [reflexivity | lia]).
Defined.


(** C4: [mut2seq] on [A1T] with the reference [SKGE] does not return
    [STGE]: [aa_pos] takes the empty slice [mut[2:-1]] of [A1T], and [int]
    raises [ValueError] on it. *)
Theorem mut2seq_A1T_SKGE :
  aa_pos (VStr "A1T") = Raise ValueError_int /\
  mut2seq (VStr "A1T") "SKGE" ":" = Raise ValueError_int.
Proof. split; reflexivity. Qed.

(** C5: on the empty mutation string and on [None], [mut2seq] returns the
    reference sequence itself, whatever the delimiter. *)
Theorem mut2seq_identity (R delimiter : string) :
  mut2seq (VStr "") R delimiter = Ok R /\ mut2seq VNone R delimiter = Ok R.
Proof. split; reflexivity. Qed.

(** C6: whenever [mut2seq] returns, the sequence it returns is as long as
    the reference sequence. *)
Theorem mut2seq_length (mutation_string : value) (wt_sequence delimiter r : string) :
  mut2seq mutation_string wt_sequence delimiter = Ok r ->
  String.length r = String.length wt_sequence.
Proof.
  intros H. destruct mutation_string as [|[|c s]|z]; simpl in H;
    try (injection H as <-; reflexivity); try discriminate.
  change (mut2seq (VStr (String c s)) wt_sequence delimiter = Ok r) in H.
  rewrite mut2seq_nonempty in H.
  destruct (split (String c s) delimiter) as [mutations|e]; [|discriminate].
  simpl in H.
  destruct (mut2seq_loop wt_sequence mutations (list_of_str wt_sequence))
    as [l|e] eqn:Hloop; [|discriminate].
  simpl in H.
  destruct (mut2seq_loop_chars _ _ _ _ Hloop (Forall_is_char_list_of_str _))
    as [Hc Hn].
  destruct (join_empty_chars l Hc) as [r' [Hj Hr']].
  rewrite Hj in H. injection H as <-.
  rewrite <- (length_list_of_str r'), Hr', Hn. apply length_list_of_str.
Qed.

Lemma mut2seq_length_witness :
  mut2seq (VStr "SK1R:SE3D") "SKGE" ":" = Ok "SRGD" /\
  String.length "SRGD" = String.length "SKGE".
Proof.
  split; [reflexivity|].
  apply (mut2seq_length (VStr "SK1R:SE3D") "SKGE" ":" "SRGD"). reflexivity.
Defined.

(** C7: [count_mutations] returns 0 on the empty string and, on every
    other mutation string, the number of its tokens for the separator
    [:]; every string has such tokens; [A111T] counts 1 and
    [A111T:V130A] counts 2. *)
Theorem count_mutations_tokens :
  count_mutations (VStr "") = Ok 0 /\
  (forall (x : string) (ts : list string),
      x <> "" -> tokens_of x ts ->
      count_mutations (VStr x) = Ok (Z.of_nat (length ts))) /\
  (forall x : string, exists ts, tokens_of x ts) /\
  count_mutations (VStr "A111T") = Ok 1 /\
  count_mutations (VStr "A111T:V130A") = Ok 2.
Proof.
  split; [reflexivity|]. split; [|split; [exact tokens_of_exists | split; reflexivity]].
  intros x ts Hx Hts. destruct x as [|c s]; [contradiction|].
  change (count_mutations (VStr (String c s)))
    with (let* l := split (String c s) ":" in Ok (Z.of_nat (length l))).
  now rewrite (split_tokens_of _ _ Hts).
Qed.

Lemma count_mutations_tokens_witness :
  tokens_of "A111T:V130A:N249I" ["A111T"; "V130A"; "N249I"] /\
  count_mutations (VStr "A111T:V130A:N249I") = Ok 3.
Proof.
  assert (H : tokens_of "A111T:V130A:N249I" ["A111T"; "V130A"; "N249I"]).
  { split; [discriminate|]. split; [|reflexivity].
    repeat constructor. }
  split; [exact H|].
  apply (proj1 (proj2 count_mutations_tokens) "A111T:V130A:N249I"
           ["A111T"; "V130A"; "N249I"]);
    [discriminate | exact H].
Defined.

(** C8: on a token of one, two or three characters [aa_pos] raises the
    [ValueError] of [int], the slice [mut[2:-1]] being empty; and
    [mut2seq] fails on every mutation string that has such a token among
    the tokens [split] makes of it. *)
Theorem short_token_fails (mut : string) :
  (1 <= String.length mut <= 3)%nat ->
  slice mut 2 (-1) = "" /\
  (exists e, aa_pos (VStr mut) = Raise e /\ MalformedTokenError e) /\
  forall (mutation_string wt_sequence delimiter : string) (mutations : list string),
    split mutation_string delimiter = Ok mutations ->
    In mut mutations ->
    fails (mut2seq (VStr mutation_string) wt_sequence delimiter).
Proof.
  intros [Hlo Hhi].
  assert (Hpos : aa_pos (VStr mut) = Raise ValueError_int).
  { destruct mut as [|c s]; [simpl in Hlo; lia|].
    rewrite aa_pos_nonempty, slice_short by exact Hhi. reflexivity. }
  split; [now apply slice_short|].
  split; [exists ValueError_int; now split|].
  intros ms R delimiter mutations Hsplit Hin.
  destruct ms as [|c s].
  - destruct delimiter; [discriminate|]. simpl in Hsplit.
    injection Hsplit as <-. destruct Hin as [<-|[]]. simpl in Hlo. lia.
  - rewrite mut2seq_nonempty, Hsplit. simpl.
    destruct (mut2seq_loop_fails R mutations mut _ Hin Hpos (list_of_str R))
      as [e He].
    rewrite He. now exists e.
Qed.

Lemma short_token_fails_witness :
  (exists e, aa_pos (VStr "A1T") = Raise e /\ MalformedTokenError e) /\
  fails (mut2seq (VStr "SK1R:A1T") "SKGE" ":").
Proof.
  assert (H : (1 <= String.length "A1T" <= 3)%nat) by (simpl; lia).
  destruct (short_token_fails "A1T" H) as (_ & Hpos & Hrec).
  split; [exact Hpos|].
  apply (Hrec "SK1R:A1T" "SKGE" ":" ["SK1R"; "A1T"]).
  - reflexivity.
  - simpl. right; left; reflexivity.
Defined.



(** C10: [count_mutations] has no delimiter argument and always splits
    on [:]: on every non-empty string it returns one more than the number
    of [:] in the string, whatever other characters the string has; so on
    a non-empty string without [:] it returns 1, also when the string is
    written with another delimiter; on [None] it raises
    ([AttributeError], [None] having no [split]) instead of returning 0. *)
Theorem count_mutations_fixed_colon :
  (forall x : string,
      x <> "" ->
      count_mutations (VStr x) = Ok (Z.of_nat (S (count_char ":" x)))) /\
  (forall x : string,
      x <> "" -> has_char ":" x = false -> count_mutations (VStr x) = Ok 1) /\
  count_mutations VNone = Raise AttributeError.
Proof.
  split; [|split; [|reflexivity]].
  - intros x Hx. destruct x as [|c s]; [contradiction|].
    change (count_mutations (VStr (String c s)))
      with (let* l := split (String c s) ":" in Ok (Z.of_nat (length l))).
    change (split (String c s) ":") with (Ok (split_from ":" (String c s) 0 "")).
    unfold bind. now rewrite length_split_from_char.
  - intros x Hx Hno. destruct x as [|c s]; [contradiction|].
    change (count_mutations (VStr (String c s)))
      with (let* l := split (String c s) ":" in Ok (Z.of_nat (length l))).
    unfold split. now rewrite (split_from_no_sep ":" _ Hno).
Qed.

(** On [A111T;V130A], which [mut2seq] called with the delimiter [;]
    splits in two tokens, [count_mutations] returns 1; on
    [A111T;V130A:N249I;H255Y], four tokens for [;] and [:] together, it
    returns 2, one more than the number of [:]. *)
Lemma count_mutations_fixed_colon_witness :
  split "A111T;V130A" ";" = Ok ["A111T"; "V130A"] /\
  count_mutations (VStr "A111T;V130A") = Ok 1 /\
  count_mutations (VStr "A111T;V130A:N249I;H255Y") = Ok 2.
Proof.
  split; [reflexivity|]. split.
  - apply (proj1 (proj2 count_mutations_fixed_colon) "A111T;V130A");
      [discriminate | reflexivity].
  - apply (proj1 count_mutations_fixed_colon "A111T;V130A:N249I;H255Y").
    discriminate.
Defined.

(** ** Further properties of [aa_pos] and [aa_letter] *)

Lemma last_char_append (a : ascii) (t : string) (c : ascii) :
  last_char a (t ++ String c "") = c.
Proof. revert a; induction t as [|b t IH]; intros a; simpl; [reflexivity | apply IH]. Qed.

(** X1: on a token made of two characters, a non-empty run of decimal
    digits and a last character, [aa_pos] returns the number the digits
    denote, which is not negative. *)
Theorem aa_pos_digits (a b z : ascii) (m : string) :
  all_digits m = true -> m <> "" ->
  aa_pos (VStr (String a (String b (m ++ String z "")))) = Ok (VInt (decimal m)) /\
  0 <= decimal m.
Proof.
  intros Hd Hne. split; [|now apply decimal_nonneg].
  now rewrite aa_pos_two_last, (int_all_digits m Hd Hne).
Qed.

Lemma aa_pos_digits_witness :
  aa_pos (VStr "SA108D") = Ok (VInt 108) /\ 0 <= 108.
Proof.
  apply (aa_pos_digits "S" "A" "D" "108"); [reflexivity | discriminate].
Defined.

(** X2: [aa_pos] does not look at the first two characters and at the
    last character of a token of four characters or more: tokens that
    agree in between have the same position, or fail alike. *)
Theorem aa_pos_ignores_letters (a b z a' b' z' : ascii) (m : string) :
  aa_pos (VStr (String a (String b (m ++ String z "")))) =
  aa_pos (VStr (String a' (String b' (m ++ String z' "")))).
Proof.
  rewrite (aa_pos_two_last a b z m).
  rewrite (aa_pos_two_last a' b' z' m).
  reflexivity.
Qed.

(** X3: on a non-empty string [aa_letter] raises nothing and returns the
    last character, as a string of one character. *)
Theorem aa_letter_last (t : string) (c : ascii) :
  aa_letter (VStr (t ++ String c "")) = Ok (VStr (String c "")).
Proof.
  destruct t as [|a t]; [reflexivity|].
  change (String a t ++ String c "")%string with (String a (t ++ String c "")).
  now rewrite aa_letter_nonempty, last_char_append.
Qed.

(** ** Further properties of [mut2seq] *)

(** X4: on a non-empty mutation string, [mut2seq] returns exactly when
    every token has an integer position other than 0 that is a valid
    index of the reference, from [-len(wt_sequence)] to
    [len(wt_sequence) - 1]. *)
Theorem mut2seq_succeeds_iff (mutation_string wt_sequence delimiter : string)
  (mutations : list string) :
  mutation_string <> "" ->
  split mutation_string delimiter = Ok mutations ->
  succeeds (mut2seq (VStr mutation_string) wt_sequence delimiter) <->
  Forall (writable wt_sequence) mutations.
Proof.
  intros Hne Hsplit. destruct mutation_string as [|c s]; [contradiction|].
  split.
  - intros [r Hr]. apply (mut2seq_Ok_loop _ _ _ _ _ _ Hsplit) in Hr.
    exact (mut2seq_loop_Ok_writable _ _ _ _ Hr (length_list_of_str_len _)).
  - intros Hw.
    destruct (mut2seq_loop_writable _ _ Hw _ (length_list_of_str_len wt_sequence))
      as (l' & Hl' & _).
    destruct (mut2seq_loop_chars _ _ _ _ Hl' (Forall_is_char_list_of_str _))
      as [Hc _].
    destruct (join_empty_chars l' Hc) as (r & _ & <-).
    exists r. now apply (mut2seq_Ok_loop _ _ _ _ _ _ Hsplit).
Qed.

Lemma mut2seq_succeeds_iff_witness :
  succeeds (mut2seq (VStr "SK1R:SE-1T") "SKGE" ":") /\
  ~ Forall (writable "SKGE") ["SK1R"; "SE4T"].
Proof.
  split.
  - apply (mut2seq_succeeds_iff "SK1R:SE-1T" "SKGE" ":" ["SK1R"; "SE-1T"]);
      [discriminate | reflexivity |].
    repeat constructor.
    + exists 1. change (len "SKGE") with 4.
      split; [reflexivity | split; [discriminate | lia]].
    + exists (-1). change (len "SKGE") with 4.
      split; [reflexivity | split; [discriminate | lia]].
  - intros H.
    apply (mut2seq_succeeds_iff "SK1R:SE4T" "SKGE" ":" ["SK1R"; "SE4T"]) in H;
      [| discriminate | reflexivity].
    destruct H as [r Hr]. discriminate.
Defined.

(** X5: when [mut2seq] returns, an index that is the written index of no
    token has the character of the reference. *)
Theorem mut2seq_untouched (mutation_string wt_sequence delimiter r : string)
  (mutations : list string) (i : nat) :
  mut2seq (VStr mutation_string) wt_sequence delimiter = Ok r ->
  split mutation_string delimiter = Ok mutations ->
  (forall mut, In mut mutations -> token_index wt_sequence mut <> i) ->
  String.get i r = String.get i wt_sequence.
Proof.
  intros Hr Hsplit Hno. destruct mutation_string as [|c s].
  - simpl in Hr. now injection Hr as <-.
  - apply (mut2seq_Ok_loop _ _ _ _ _ _ Hsplit) in Hr.
    apply lookup_list_of_str_eq.
    exact (mut2seq_loop_untouched _ _ i _ _ Hr (length_list_of_str_len _) Hno).
Qed.

Lemma mut2seq_untouched_witness :
  mut2seq (VStr "SK1R:SG2A") "SKGE" ":" = Ok "SRAE" /\
  String.get 3 "SRAE" = String.get 3 "SKGE".
Proof.
  split; [reflexivity|].
  apply (mut2seq_untouched "SK1R:SG2A" "SKGE" ":" "SRAE" ["SK1R"; "SG2A"] 3);
    [reflexivity | reflexivity |].
  intros mut [<- | [<- | []]]; discriminate.
Defined.

(** X6: when [mut2seq] returns, the character at the written index of a
    token is the last character of that token unless a later token writes
    the same index: the last write wins. *)
Theorem mut2seq_last_write_wins (mutation_string wt_sequence delimiter r : string)
  (pre post : list string) (mut : string) (x : ascii) :
  mut2seq (VStr mutation_string) wt_sequence delimiter = Ok r ->
  split mutation_string delimiter = Ok (pre ++ mut :: post)%list ->
  aa_letter (VStr mut) = Ok (VStr (String x "")) ->
  (forall m, In m post -> token_index wt_sequence m <> token_index wt_sequence mut) ->
  String.get (token_index wt_sequence mut) r = Some x.
Proof.
  intros Hr Hsplit Hx Hpost. destruct mutation_string as [|c s].
  - destruct delimiter; [discriminate|]. simpl in Hsplit.
    injection Hsplit as Heq.
    destruct pre as [|m [|m' pre]]; try discriminate.
    injection Heq as <- _. discriminate.
  - apply (mut2seq_Ok_loop _ _ _ _ _ _ Hsplit) in Hr.
    apply lookup_list_of_str_Some.
    exact (mut2seq_loop_last_write _ _ _ _ _ _ _ Hr
             (length_list_of_str_len _) Hx Hpost).
Qed.

Lemma mut2seq_last_write_wins_witness :
  mut2seq (VStr "SK1R:SG2A:SE1T") "SKGE" ":" = Ok "STAE" /\
  token_index "SKGE" "SE1T" = 1%nat /\
  String.get (token_index "SKGE" "SE1T") "STAE" = Some "T"%char.
Proof.
  split; [reflexivity|]. split; [reflexivity|].
  apply (mut2seq_last_write_wins "SK1R:SG2A:SE1T" "SKGE" ":" "STAE"
           ["SK1R"; "SG2A"] [] "SE1T" "T");
    [reflexivity | reflexivity | reflexivity |].
  intros m [].
Defined.

(** X7: mutation strings whose tokens are the same up to their order
    give the same sequence when the tokens write pairwise different
    indices. *)
Theorem mut2seq_order_irrelevant
  (mutation_string mutation_string' wt_sequence delimiter r : string)
  (mutations mutations' : list string) :
  mut2seq (VStr mutation_string) wt_sequence delimiter = Ok r ->
  split mutation_string delimiter = Ok mutations ->
  split mutation_string' delimiter = Ok mutations' ->
  Permutation mutations mutations' ->
  List.NoDup (map (token_index wt_sequence) mutations) ->
  mut2seq (VStr mutation_string') wt_sequence delimiter = Ok r.
Proof.
  intros Hr Hsplit Hsplit' Hperm Hnd.
  destruct mutation_string as [|c s].
  - simpl in Hr. injection Hr as <-.
    destruct delimiter as [|d delimiter]; [discriminate|].
    simpl in Hsplit. injection Hsplit as <-.
    apply Permutation_length_1_inv in Hperm. subst mutations'.
    now rewrite (split_empty_token _ _ Hsplit').
  - destruct mutation_string' as [|c' s'].
    + destruct delimiter as [|d delimiter]; [discriminate|].
      simpl in Hsplit'. injection Hsplit' as <-.
      apply Permutation_sym, Permutation_length_1_inv in Hperm. subst mutations.
      apply split_empty_token in Hsplit. discriminate.
    + apply (mut2seq_Ok_loop _ _ _ _ _ _ Hsplit) in Hr.
      apply (mut2seq_Ok_loop _ _ _ _ _ _ Hsplit').
      exact (mut2seq_loop_permutation _ _ _ _ _ Hr
               (length_list_of_str_len _) Hperm Hnd).
Qed.

Lemma mut2seq_order_irrelevant_witness :
  mut2seq (VStr "SK1R:SG2A") "SKGE" ":" = Ok "SRAE" /\
  mut2seq (VStr "SG2A:SK1R") "SKGE" ":" = Ok "SRAE".
Proof.
  split; [reflexivity|].
  apply (mut2seq_order_irrelevant "SK1R:SG2A" "SG2A:SK1R" "SKGE" ":" "SRAE"
           ["SK1R"; "SG2A"] ["SG2A"; "SK1R"]);
    [reflexivity | reflexivity | reflexivity | apply perm_swap |].
  repeat constructor; simpl; intuition discriminate.
Defined.

(** X8: applying a mutation string to the sequence it gave changes
    nothing. *)
Theorem mut2seq_idempotent (mutation_string wt_sequence delimiter r : string) :
  mut2seq (VStr mutation_string) wt_sequence delimiter = Ok r ->
  mut2seq (VStr mutation_string) r delimiter = Ok r.
Proof.
  intros Hr. destruct mutation_string as [|c s]; [reflexivity|].
  destruct (split (String c s) delimiter) as [mutations|e] eqn:Hsplit.
  2:{ rewrite mut2seq_nonempty, Hsplit in Hr. discriminate. }
  apply (mut2seq_Ok_loop _ _ _ _ _ _ Hsplit) in Hr.
  apply (mut2seq_Ok_loop _ _ _ _ _ _ Hsplit).
  assert (Hlen : len r = len wt_sequence).
  { rewrite <- (length_list_of_str_len r), (mut2seq_loop_length _ _ _ _ Hr).
    apply length_list_of_str_len. }
  rewrite (mut2seq_loop_len r wt_sequence mutations Hlen).
  exact (mut2seq_loop_again _ _ _ _ Hr (length_list_of_str_len _)).
Qed.

Lemma mut2seq_idempotent_witness :
  mut2seq (VStr "SK1R:SG2A") "SKGE" ":" = Ok "SRAE" /\
  mut2seq (VStr "SK1R:SG2A") "SRAE" ":" = Ok "SRAE".
Proof.
  split; [reflexivity|].
  apply (mut2seq_idempotent "SK1R:SG2A" "SKGE" ":" "SRAE"). reflexivity.
Defined.

Lemma mut2seq_loop_hamming (wt_sequence r : string) (mutations : list string) :
  mut2seq_loop wt_sequence mutations (list_of_str wt_sequence) = Ok (list_of_str r) ->
  (hamming r wt_sequence <= length mutations)%nat.
Proof.
  intros Hr.
  rewrite <- (length_map (token_index wt_sequence) mutations).
  apply hamming_le. intros i Hi.
  destruct (in_dec Nat.eq_dec i (map (token_index wt_sequence) mutations))
    as [Hin|Hnot]; [exact Hin|].
  rewrite differs_at_same_get in Hi; [discriminate|].
  apply lookup_list_of_str_eq.
  apply (mut2seq_loop_untouched _ _ i _ _ Hr (length_list_of_str_len _)).
  intros mut Hmut Heq. apply Hnot. rewrite <- Heq. now apply in_map.
Qed.

(** X9: when [mut2seq] returns on a non-empty mutation string, the
    sequence differs from the reference at no more indices than the
    mutation string has tokens. *)
Theorem mut2seq_hamming (mutation_string wt_sequence delimiter r : string)
  (mutations : list string) :
  mutation_string <> "" ->
  mut2seq (VStr mutation_string) wt_sequence delimiter = Ok r ->
  split mutation_string delimiter = Ok mutations ->
  (hamming r wt_sequence <= length mutations)%nat.
Proof.
  intros Hne Hr Hsplit. destruct mutation_string as [|c s]; [contradiction|].
  apply (mut2seq_Ok_loop _ _ _ _ _ _ Hsplit) in Hr.
  now apply mut2seq_loop_hamming.
Qed.

Lemma mut2seq_hamming_witness :
  mut2seq (VStr "SK1R:SG2A:SE1T") "SKGE" ":" = Ok "STAE" /\
  (hamming "STAE" "SKGE" <= 3)%nat.
Proof.
  split; [reflexivity|].
  apply (mut2seq_hamming "SK1R:SG2A:SE1T" "SKGE" ":" "STAE"
           ["SK1R"; "SG2A"; "SE1T"]);
    [discriminate | reflexivity | reflexivity].
Defined.

(** X10: for one value of the column [aaMutations], when [mut2gfp]
    returns a sequence and [count_mutations] a count, the sequence has
    the 237 residues of the wild type and differs from the wild type at
    no more indices than the count. *)
Theorem mut2gfp_count_mutations (aaMutations : value) (r : string) (n : Z) :
  mut2gfp aaMutations = Ok r ->
  count_mutations aaMutations = Ok n ->
  String.length r = 237%nat /\ Z.of_nat (hamming r wt) <= n.
Proof.
  unfold mut2gfp. intros Hr Hn.
  destruct aaMutations as [|[|c s]|z]; try discriminate.
  - simpl in Hr, Hn. injection Hr as <-. injection Hn as <-.
    split; [reflexivity|]. rewrite hamming_refl. reflexivity.
  - assert (Hsplit : split (String c s) ":" = Ok (split_from ":" (String c s) 0 ""))
      by reflexivity.
    change (count_mutations (VStr (String c s)))
      with (let* l := split (String c s) ":" in Ok (Z.of_nat (length l))) in Hn.
    rewrite Hsplit in Hn. simpl bind in Hn. injection Hn as <-.
    apply (mut2seq_Ok_loop _ _ _ _ _ _ Hsplit) in Hr.
    split.
    + rewrite <- (length_list_of_str r), (mut2seq_loop_length _ _ _ _ Hr).
      now rewrite length_list_of_str.
    + apply inj_le. now apply mut2seq_loop_hamming.
Qed.

Lemma mut2gfp_count_mutations_witness :
  exists r : string,
    mut2gfp (VStr "SK1R:SA108D") = Ok r /\
    count_mutations (VStr "SK1R:SA108D") = Ok 2 /\
    String.length r = 237%nat /\ Z.of_nat (hamming r wt) <= 2.
Proof.
  destruct (mut2gfp (VStr "SK1R:SA108D")) as [r|e] eqn:Hr;
    [|vm_compute in Hr; discriminate].
  exists r. split; [reflexivity|]. split; [reflexivity|].
  apply (mut2gfp_count_mutations (VStr "SK1R:SA108D") r 2); [exact Hr | reflexivity].
Defined.

(** X11: on a non-empty string [count_mutations] returns one more than
    the number of [:] in it. *)
Theorem count_mutations_colons (x : string) :
  x <> "" ->
  count_mutations (VStr x) = Ok (Z.of_nat (S (count_char ":" x))).
Proof.
  intros Hne. destruct x as [|c s]; [contradiction|].
  change (count_mutations (VStr (String c s)))
    with (let* l := split (String c s) ":" in Ok (Z.of_nat (length l))).
  change (split (String c s) ":") with (Ok (split_from ":" (String c s) 0 "")).
  unfold bind. now rewrite length_split_from_char.
Qed.

Lemma count_mutations_colons_witness :
  count_mutations (VStr "SK1R::SA108D:") = Ok 4.
Proof. apply (count_mutations_colons "SK1R::SA108D:"). discriminate. Defined.

(** X12: what [mut2seq] raises at the first token it does not accept,
    apart from its own two errors: [TypeError] on an empty token (two
    delimiters in a row, or one at either end), the [ValueError] of [int]
    on a token whose position is not an integer literal, and
    [IndexError] on a position equal to [len(wt_sequence)] or below
    [-len(wt_sequence)]. *)
Theorem mut2seq_first_failure (mutation_string wt_sequence delimiter : string)
  (pre post : list string) (mut : string) :
  mutation_string <> "" ->
  split mutation_string delimiter = Ok (pre ++ mut :: post)%list ->
  Forall (writable wt_sequence) pre ->
  (mut = "" ->
   mut2seq (VStr mutation_string) wt_sequence delimiter = Raise TypeError) /\
  (forall e, aa_pos (VStr mut) = Raise e ->
   mut2seq (VStr mutation_string) wt_sequence delimiter = Raise ValueError_int) /\
  (forall p, aa_pos (VStr mut) = Ok (VInt p) ->
   p <> 0 -> p = len wt_sequence \/ p < - len wt_sequence ->
   mut2seq (VStr mutation_string) wt_sequence delimiter = Raise IndexError).
Proof.
  intros Hne Hsplit Hpre. destruct mutation_string as [|c s]; [contradiction|].
  destruct (mut2seq_loop_writable _ _ Hpre _ (length_list_of_str_len wt_sequence))
    as (l1 & Hrun1 & Hn1).
  assert (Hl1 : Z.of_nat (length l1) = len wt_sequence).
  { rewrite Hn1. apply length_list_of_str_len. }
  assert (Hrun : mut2seq (VStr (String c s)) wt_sequence delimiter =
                 let* l2 := (let* l' := mut2seq_body wt_sequence l1 mut in
                             mut2seq_loop wt_sequence post l') in
                 join_empty l2).
  { rewrite mut2seq_nonempty, Hsplit. unfold bind at 1.
    now rewrite mut2seq_loop_app, Hrun1. }
  rewrite Hrun. split; [|split].
  - intros ->. reflexivity.
  - intros e He. rewrite (mut2seq_body_raise _ _ _ _ He).
    now rewrite (aa_pos_raise _ _ He).
  - intros p Hp Hp0 Hout.
    destruct (aa_pos_VInt_nonempty _ _ Hp) as (c' & s' & ->).
    rewrite (mut2seq_body_VInt _ _ _ _ _ Hp).
    destruct (Z.eqb_spec p 0); [contradiction|].
    destruct (Z.ltb_spec (len wt_sequence) p); [unfold len in *; lia|].
    rewrite setitem_IndexError by lia. reflexivity.
Qed.

Lemma mut2seq_first_failure_witness :
  mut2seq (VStr "SK1R::SG2A") "SKGE" ":" = Raise TypeError /\
  mut2seq (VStr "SK1R:SE4T") "SKGE" ":" = Raise IndexError.
Proof.
  assert (Hpre : Forall (writable "SKGE") ["SK1R"]).
  { repeat constructor. exists 1. change (len "SKGE") with 4.
    split; [reflexivity | split; [discriminate | lia]]. }
  split.
  - assert (Hne : "SK1R::SG2A" <> "") by discriminate.
    exact (proj1 (mut2seq_first_failure "SK1R::SG2A" "SKGE" ":"
                    ["SK1R"] ["SG2A"] "" Hne eq_refl Hpre) eq_refl).
  - assert (Hne : "SK1R:SE4T" <> "") by discriminate.
    apply (proj2 (proj2 (mut2seq_first_failure "SK1R:SE4T" "SKGE" ":"
                           ["SK1R"] [] "SE4T" Hne eq_refl Hpre)) 4);
      [reflexivity | discriminate | now left].
Defined.

(** X13: the loop of [mut2seq] does not look at the first two characters
    of a token of four characters or more: the residue a token names as
    the original one is not compared with the reference. *)
Theorem mut2seq_body_ignores_letters (wt_sequence : string) (l : list value)
  (a b a' b' z : ascii) (m : string) :
  mut2seq_body wt_sequence l (String a (String b (m ++ String z ""))) =
  mut2seq_body wt_sequence l (String a' (String b' (m ++ String z ""))).
Proof.
  unfold mut2seq_body.
  rewrite !aa_pos_two_last, !aa_letter_nonempty.
  change (last_char a (String b (m ++ String z "")))
    with (last_char b (m ++ String z "")).
  change (last_char a' (String b' (m ++ String z "")))
    with (last_char b' (m ++ String z "")).
  now rewrite !last_char_append.
Qed.

Lemma writable_len (wt1 wt2 mut : string) :
  len wt1 = len wt2 -> writable wt1 mut -> writable wt2 mut.
Proof. unfold writable. now intros ->. Qed.

Lemma mut2seq_body_raise_len (wt1 wt2 : string) (l1 l2 : list value)
  (mut : string) (e : exn) :
  len wt1 = len wt2 -> length l1 = length l2 ->
  mut2seq_body wt1 l1 mut = Raise e -> mut2seq_body wt2 l2 mut = Raise e.
Proof.
  intros Hlen Hl H.
  destruct (aa_pos_cases mut) as [[e' He'] | [[-> _] | [p Hp]]].
  - rewrite (mut2seq_body_raise wt1 l1 _ _ He') in H.
    now rewrite (mut2seq_body_raise wt2 l2 _ _ He').
  - exact H.
  - destruct (aa_pos_VInt_nonempty _ _ Hp) as (c & s & ->).
    rewrite (mut2seq_body_VInt wt1 l1 _ _ _ Hp) in H.
    rewrite (mut2seq_body_VInt wt2 l2 _ _ _ Hp).
    rewrite <- Hlen. destruct (p =? 0); [exact H|].
    destruct (len wt1 <? p); [exact H|].
    unfold setitem in *. rewrite <- Hl.
    destruct ((p <? - Z.of_nat (length l1)) || (Z.of_nat (length l1) <=? p));
      [exact H | discriminate].
Qed.

Lemma mut2seq_loop_raise_len (wt1 wt2 : string) (mutations : list string) (e : exn) :
  len wt1 = len wt2 ->
  forall l1 l2 : list value,
    Z.of_nat (length l1) = len wt1 -> length l1 = length l2 ->
    mut2seq_loop wt1 mutations l1 = Raise e ->
    mut2seq_loop wt2 mutations l2 = Raise e.
Proof.
  intros Hlen. induction mutations as [|m rest IH]; intros l1 l2 Hl1 Hl H;
    [discriminate|].
  simpl in H |- *.
  destruct (mut2seq_body wt1 l1 m) as [l1'|e1] eqn:Hb; simpl in H.
  - pose proof (mut2seq_body_Ok_writable _ _ _ _ Hb Hl1) as Hw.
    apply (writable_len _ wt2 _ Hlen) in Hw.
    destruct (mut2seq_body_writable wt2 l2 m Hw) as (l2' & -> & Hn2); [lia|].
    simpl. pose proof (mut2seq_body_length _ _ _ _ Hb) as Hn1.
    apply (IH l1' l2'); [lia | lia | exact H].
  - injection H as ->.
    now rewrite (mut2seq_body_raise_len _ _ _ _ _ _ Hlen Hl Hb).
Qed.

Lemma mut2seq_raise_len (mutation_string wt1 wt2 delimiter : string) (e : exn) :
  len wt1 = len wt2 ->
  mut2seq (VStr mutation_string) wt1 delimiter = Raise e ->
  mut2seq (VStr mutation_string) wt2 delimiter = Raise e.
Proof.
  intros Hlen H. destruct mutation_string as [|c s]; [discriminate|].
  rewrite mut2seq_nonempty in *.
  destruct (split (String c s) delimiter) as [mutations|e'];
    [|exact H].
  simpl in H |- *.
  destruct (mut2seq_loop wt1 mutations (list_of_str wt1)) as [l|e1] eqn:Hloop;
    simpl in H.
  - destruct (mut2seq_loop_chars _ _ _ _ Hloop (Forall_is_char_list_of_str _))
      as [Hc _].
    destruct (join_empty_chars l Hc) as (r & Hr & _). congruence.
  - injection H as ->.
    rewrite (mut2seq_loop_raise_len wt1 wt2 mutations e Hlen
               (list_of_str wt1) (list_of_str wt2)); try assumption.
    + reflexivity.
    + apply length_list_of_str_len.
    + rewrite !length_list_of_str. unfold len in Hlen. lia.
Qed.

(** X14: whether [mut2seq] fails on a mutation string, and with which
    exception, depends on the length of the reference only, not on its
    residues. *)
Theorem mut2seq_failure_reference_length
  (mutation_string wt1 wt2 delimiter : string) (e : exn) :
  String.length wt1 = String.length wt2 ->
  mut2seq (VStr mutation_string) wt1 delimiter = Raise e <->
  mut2seq (VStr mutation_string) wt2 delimiter = Raise e.
Proof.
  intros Hlen.
  assert (H12 : len wt1 = len wt2) by (unfold len; now rewrite Hlen).
  split; apply mut2seq_raise_len; [exact H12 | now symmetry].
Qed.

Lemma mut2seq_failure_reference_length_witness :
  mut2seq (VStr "SK1R:SE4T") "SKGE" ":" = Raise IndexError /\
  mut2seq (VStr "SK1R:SE4T") "AAAA" ":" = Raise IndexError.
Proof.
  split; [reflexivity|].
  apply (mut2seq_failure_reference_length "SK1R:SE4T" "SKGE" "AAAA" ":");
    reflexivity.
Defined.

(** X15: with a delimiter of one character, applying the mutation string
    made of two non-empty mutation strings and the delimiter between them
    is applying the second one to what the first one gives. *)
Theorem mut2seq_compose (ms1 ms2 wt_sequence r1 : string) (d : ascii) :
  ms1 <> "" -> ms2 <> "" ->
  mut2seq (VStr ms1) wt_sequence (String d "") = Ok r1 ->
  mut2seq (VStr (ms1 ++ String d ms2)) wt_sequence (String d "") =
  mut2seq (VStr ms2) r1 (String d "").
Proof.
  intros H1 H2 Hr1.
  destruct ms1 as [|c1 s1]; [contradiction|].
  destruct ms2 as [|c2 s2]; [contradiction|].
  assert (Hs1 : split (String c1 s1) (String d "") =
                Ok (split_from (String d "") (String c1 s1) 0 "")) by reflexivity.
  apply (mut2seq_Ok_loop _ _ _ _ _ _ Hs1) in Hr1.
  assert (Hlen : len r1 = len wt_sequence).
  { rewrite <- (length_list_of_str_len r1), (mut2seq_loop_length _ _ _ _ Hr1).
    apply length_list_of_str_len. }
  change (String c1 s1 ++ String d (String c2 s2))%string
    with (String c1 (s1 ++ String d (String c2 s2))).
  rewrite !mut2seq_nonempty.
  change (String c1 (s1 ++ String d (String c2 s2)))
    with (String c1 s1 ++ String d (String c2 s2))%string.
  assert (Hs12 : split (String c1 s1 ++ String d (String c2 s2)) (String d "") =
                 Ok (split_from (String d "") (String c1 s1) 0 "" ++
                     split_from (String d "") (String c2 s2) 0 "")%list).
  { unfold split. now rewrite split_from_append_char. }
  assert (Hs2 : split (String c2 s2) (String d "") =
                Ok (split_from (String d "") (String c2 s2) 0 "")) by reflexivity.
  rewrite Hs12, Hs2. cbn [bind].
  rewrite mut2seq_loop_app, Hr1. cbn [bind].
  now rewrite (mut2seq_loop_len r1 wt_sequence _ Hlen).
Qed.

Lemma mut2seq_compose_witness :
  mut2seq (VStr "SK1R") "SKGE" ":" = Ok "SRGE" /\
  mut2seq (VStr "SK1R:SG2A") "SKGE" ":" = mut2seq (VStr "SG2A") "SRGE" ":".
Proof.
  split; [reflexivity|].
  apply (mut2seq_compose "SK1R" "SG2A" "SKGE" "SRGE" ":");
    [discriminate | discriminate | reflexivity].
Defined.

(** ** Properties of [chunker] *)

(** X16: with a positive size [chunker] yields chunks that, one after
    the other, make up the sequence: no item is lost, repeated or moved. *)
Theorem chunker_concat {A : Type} (sequence : list A) (size : Z) :
  0 < size ->
  exists chunks, chunker sequence size = Some chunks /\ concat chunks = sequence.
Proof.
  intros Hs. rewrite (chunker_positive sequence size Hs).
  eexists. split; [reflexivity|].
  rewrite concat_chunks. apply take_ge.
  set (k := chunk_count (Z.of_nat (length sequence)) size).
  destruct (Nat.le_gt_cases (length sequence) (k * Z.to_nat size)) as [Hle|Hgt];
    [exact Hle|].
  assert (Hk : (k < chunk_count (Z.of_nat (length sequence)) size)%nat).
  { apply chunk_count_lt; lia. }
  unfold k in Hk. lia.
Qed.

Lemma chunker_concat_witness :
  exists chunks,
    chunker [1; 2; 3; 4; 5] 2 = Some chunks /\ concat chunks = [1; 2; 3; 4; 5].
Proof. apply (chunker_concat [1; 2; 3; 4; 5] 2). lia. Defined.

(** X17: with a positive size, chunk [i] is made of the items from index
    [i * size] on, [size] of them or as many as are left; no chunk is
    empty, none has more than [size] items, and every chunk but the last
    has [size] items. *)
Theorem chunker_chunks {A : Type} (sequence : list A) (size : Z)
  (chunks : list (list A)) (i : nat) (c : list A) :
  0 < size ->
  chunker sequence size = Some chunks ->
  chunks !! i = Some c ->
  c = take (Z.to_nat size) (drop (i * Z.to_nat size) sequence) /\
  1 <= Z.of_nat (length c) <= size /\
  ((S i < length chunks)%nat -> Z.of_nat (length c) = size).
Proof.
  intros Hs Hch Hi. rewrite (chunker_positive sequence size Hs) in Hch.
  injection Hch as <-.
  rewrite lookup_map in Hi.
  destruct (seq 0 (chunk_count (Z.of_nat (length sequence)) size) !! i)
    as [j|] eqn:Hj; [|discriminate].
  apply lookup_seq in Hj as [-> Hlt]. simpl in Hi. injection Hi as <-.
  split; [reflexivity|].
  rewrite length_take, length_drop.
  apply chunk_count_lt in Hlt; [|lia|lia].
  split; [lia|].
  rewrite length_map, length_seq. intros Hnext.
  apply chunk_count_lt in Hnext; lia.
Qed.

Lemma chunker_chunks_witness :
  chunker [1; 2; 3; 4; 5] 2 = Some [[1; 2]; [3; 4]; [5]] /\
  [5] = take 2 (drop 4 [1; 2; 3; 4; 5]) /\ 1 <= 1 <= 2.
Proof.
  split; [reflexivity|].
  destruct (chunker_chunks [1; 2; 3; 4; 5] 2 [[1; 2]; [3; 4]; [5]] 2 [5])
    as (Hc & Hn & _); [lia | reflexivity | reflexivity |].
  split; [exact Hc | exact Hn].
Defined.

(** X18: with a positive size [chunker] yields as many chunks as the
    length of the sequence divided by the size, rounded up. *)
Theorem chunker_count {A : Type} (sequence : list A) (size : Z)
  (chunks : list (list A)) :
  0 < size ->
  chunker sequence size = Some chunks ->
  Z.of_nat (length chunks) = (Z.of_nat (length sequence) + size - 1) / size.
Proof.
  intros Hs Hch. rewrite (chunker_positive sequence size Hs) in Hch.
  injection Hch as <-. rewrite length_map, length_seq. unfold chunk_count.
  apply Z2Nat.id. apply Z.div_pos; lia.
Qed.

Lemma chunker_count_witness :
  Z.of_nat (length [[1; 2]; [3; 4]; [5]]) = (5 + 2 - 1) / 2.
Proof.
  apply (chunker_count [1; 2; 3; 4; 5] 2 [[1; 2]; [3; 4]; [5]]);
    [lia | reflexivity].
Defined.

(** X19: with a negative size [chunker] yields nothing, whatever the
    sequence; with the size 0 it raises, the [ValueError] of [range]. *)
Theorem chunker_nonpositive {A : Type} (sequence : list A) (size : Z) :
  (size < 0 -> chunker sequence size = Some []) /\
  (size = 0 -> chunker sequence size = None).
Proof.
  split; intros Hs; unfold chunker, range.
  - destruct (Z.eqb_spec size 0); [lia|].
    destruct (Z.ltb_spec 0 size); [lia|].
    destruct (Z.ltb_spec (Z.of_nat (length sequence)) 0); [lia|].
    reflexivity.
  - subst size. reflexivity.
Qed.

Lemma chunker_nonpositive_witness :
  chunker [1; 2; 3] (-2) = Some [] /\ chunker [1; 2; 3] 0 = None.
Proof.
  split.
  - apply (proj1 (chunker_nonpositive [1; 2; 3] (-2))). lia.
  - apply (proj2 (chunker_nonpositive [1; 2; 3] 0)). reflexivity.
Defined.
